(** * ColorChecker for ITU-R BT.2100: a shallow embedding of [main.py]

    The script turns the reference values of a 24-patch colour chart into
    HDR code values and paints them into one mosaic image and 24
    single-patch images.  The embedding follows the script function by
    function:

    - Python [float] is IEEE binary64, modelled by Rocq's primitive
      floats, so [*], [/], [-] and [+] round exactly as in the script;
    - Python [int] is [Z];
    - a NumPy array of shape [(n, 3)] is a [list triple], an image of
      shape [(h, w, 3)] is a list of rows of pixels;
    - the module-level constants of the script are the fields of a
      [config] record, [reference_config] holding the values of the file;
    - the colour-science package ([colour]) is an interface, [colour_lib],
      whose functions the script only calls;
    - exceptions, the preview window and the files written are threaded
      through a small monad [M] that carries the log of events. *)

From Stdlib Require Import ZArith Floats Lia String DecimalString.
From stdpp Require Import base list.

Set Warnings "-inexact-float,-abstract-large-number".

Local Open Scope Z_scope.

(** ** Numbers *)

Module Numeric.

(** Conversion of a Python [int] to [float], as the arithmetic of the script
    does when an [int] meets a [float]: the nearest binary64 number, ties to
    even, hence the integer itself below [2^53].  (Python raises
    OverflowError where the result here is an infinity, for integers of
    more than 1024 bits.) *)
Definition float_of_int (z : Z) : float :=
  SF2Prim (binary_normalize prec emax z 0 false).

(** The integer part of [m * 2^e]. *)
Definition trunc_mag (m : positive) (e : Z) : Z :=
  if 0 <=? e then Z.shiftl (Z.pos m) e else Z.shiftr (Z.pos m) (- e).

(** Python's [int(x)] for a float: truncation toward zero; [None] stands for
    the exception raised on an infinity or a NaN. *)
Definition py_int (x : float) : option Z :=
  match Prim2SF x with
  | S754_zero _ => Some 0
  | S754_finite s m e => Some (if s then - trunc_mag m e else trunc_mag m e)
  | S754_infinity _ | S754_nan => None
  end.

(** [m * 2^e] rounded to the nearest integer, ties to the even one. *)
Definition rint_mag (m : positive) (e : Z) : Z :=
  if 0 <=? e then Z.shiftl (Z.pos m) e
  else
    let q := Z.shiftr (Z.pos m) (- e) in
    let r := Z.land (Z.pos m) (Z.ones (- e)) in
    let half := Z.shiftl 1 (- e - 1) in
    if r <? half then q
    else if half <? r then q + 1
    else if Z.even q then q else q + 1.

(** The binary64 number [(-1)^s * p] for [p] below [2^53]: the mantissa is
    shifted up to 53 digits. *)
Definition float_of_pos (s : bool) (p : positive) : float :=
  match (53 - Z.pos (digits2_pos p))%Z with
  | Z.pos k => SF2Prim (S754_finite s (Pos.iter xO p k) (Z.neg k))
  | _ => SF2Prim (S754_finite s p 0)
  end.

(** [np.round(x)] with no decimals: round half to even, the sign kept (also
    on a zero result); a number with no fractional bit, an infinity and a
    NaN are returned as they are. *)
Definition np_round (x : float) : float :=
  match Prim2SF x with
  | S754_finite s m e =>
      if 0 <=? e then x
      else match rint_mag m e with
           | Z.pos p => float_of_pos s p
           | _ => if s then (-0)%float else 0%float
           end
  | _ => x
  end.

(** [np.uint16(x)] on a float64 value: the C conversion to a 16-bit
    unsigned integer as NumPy performs it on x86-64.  The value is truncated
    toward zero to a signed 32-bit integer, of which the low 16 bits are
    kept; a value whose integer part does not fit 32 bits, an infinity and
    a NaN give 0. *)
Definition np_uint16 (x : float) : Z :=
  match py_int x with
  | Some n =>
      if (- 2 ^ 31 <=? n) && (n <? 2 ^ 31) then Z.land n 65535 else 0
  | None => 0
  end.

(** The integers [start, start + 1, ..., start + n - 1]. *)
Fixpoint zrange (start : Z) (n : nat) : list Z :=
  match n with
  | O => []
  | S n' => start :: zrange (start + 1) n'
  end.

End Numeric.
Export Numeric.

(** ** Arrays *)

Abbreviation triple := (float * float * float)%type.
Abbreviation triple16 := (Z * Z * Z)%type.

(** An image of shape [(h, w, 3)]: [h] rows of [w] pixels. *)
Abbreviation canvas := (list (list triple)).
Abbreviation canvas16 := (list (list triple16)).

Definition map3 {A B} (f : A -> B) (t : A * A * A) : B * B * B :=
  let '(a, b, c) := t in (f a, f b, f c).

(** [t[::-1]] on the last axis. *)
Definition reverse3 {A} (t : A * A * A) : A * A * A :=
  let '(a, b, c) := t in (c, b, a).

(** [img[:, :, ::-1]]. *)
Definition reverse_channels {A} (img : list (list (A * A * A))) :
  list (list (A * A * A)) :=
  map (map reverse3) img.

(** [a * k] for an array [a] of shape [(n, 3)] and a Python [int] [k]. *)
Definition array_mul_int (a : list triple) (k : Z) : list triple :=
  map (map3 (fun x => (x * float_of_int k)%float)) a.

(** The pixel at row [r], column [c], when there is one. *)
Definition pixel {A} (img : list (list A)) (r c : Z) : option A :=
  if (0 <=? r) && (0 <=? c)
  then match img !! Z.to_nat r with
       | Some row => row !! Z.to_nat c
       | None => None
       end
  else None.

Definition height {A} (img : list (list A)) : Z := Z.of_nat (length img).

(** The number of columns, read off the first row (an image with no row
    has no column here). *)
Definition width {A} (img : list (list A)) : Z :=
  match img with
  | [] => 0
  | row :: _ => Z.of_nat (length row)
  end.

(** Python's [slice(start, stop).indices(len)] for the step 1. *)
Definition slice_index (i len : Z) : Z :=
  if i <? 0 then Z.max (i + len) 0 else Z.min i len.

Definition slice_indices (start stop len : Z) : Z * Z :=
  (slice_index start len, slice_index stop len).

Definition in_range (lo hi i : Z) : bool := (lo <=? i) && (i <? hi).

(** Every pixel of the rows [v0..v1) and columns [h0..h1) set to [col]. *)
Definition fill (img : canvas) (v0 v1 h0 h1 : Z) (col : triple) : canvas :=
  imap (fun r row =>
          if in_range v0 v1 (Z.of_nat r)
          then imap (fun c p => if in_range h0 h1 (Z.of_nat c) then col else p) row
          else row) img.

(** An image of [h] rows and [w] columns, every value zero. *)
Definition blank (h w : Z) : canvas :=
  replicate (Z.to_nat h) (replicate (Z.to_nat w) (0, 0, 0)%float).

(** A patch of [patch_rows] by [patch_cols] pixels, all of one colour, as
    [np.ones] makes it and [patch[:, :] = rgb[idx]] leaves it. *)
Record patch_t := {
  patch_rows : Z;
  patch_cols : Z;
  patch_colour : triple
}.

(** NumPy's broadcasting rule for one axis of an assignment. *)
Definition broadcastable (src dst : Z) : bool := (src =? dst) || (src =? 1).

(** ** Exceptions, events and the monad of the script *)

Inductive exn : Type :=
| TypeError (msg : string)
| ValueError (msg : string)
| IndexError (msg : string)
| OverflowError (msg : string).

(** What a run does to the outside: calls into the colour-science package,
    the preview window, the files written. *)
Inductive event : Type :=
| EvChartLookup (cc_name : string)
| EvColourCall (fn : string) (arg : list triple)
| EvPreview (img : canvas)
| EvImWrite (file_name : string) (img : canvas16).

Definition M (A : Type) : Type := list event -> list event * (exn + A).

Definition ret {A} (a : A) : M A := fun log => (log, inr a).

Definition bind {A B} (m : M A) (k : A -> M B) : M B :=
  fun log =>
    match m log with
    | (log', inl e) => (log', inl e)
    | (log', inr a) => k a log'
    end.

Definition raise {A} (e : exn) : M A := fun log => (log, inl e).

Definition emit (ev : event) : M unit := fun log => (log ++ [ev], inr tt).

Notation "x <- m ;; k" := (bind m (fun x => k))
  (at level 100, m at next level, right associativity).
Notation "m ;;; k" := (bind m (fun _ => k))
  (at level 100, right associativity).

(** [for idx in range(start, start + n): s = body(idx, s)]. *)
Fixpoint for_loop {St} (body : Z -> St -> M St) (start : Z) (n : nat) (s : St) :
  M St :=
  match n with
  | O => ret s
  | S n' => s' <- body start s ;; for_loop body (start + 1) n' s'
  end.

Definition for_range {St} (n : Z) (body : Z -> St -> M St) (s : St) : M St :=
  for_loop body 0 (Z.to_nat n) s.

(** [int(x)] inside the script: OverflowError on an infinity, ValueError
    on a NaN. *)
Definition int_ (x : float) : M Z :=
  match py_int x with
  | Some n => ret n
  | None =>
      match Prim2SF x with
      | S754_nan => raise (ValueError "cannot convert float NaN to integer")
      | _ => raise (OverflowError "cannot convert float infinity to integer")
      end
  end.

(** [seq[idx]] for a non-negative index. *)
Definition getitem {A} (l : list A) (idx : Z) : M A :=
  if idx <? 0 then raise (IndexError "negative index")
  else match l !! Z.to_nat idx with
       | Some a => ret a
       | None => raise (IndexError "index out of range")
       end.

(** [np.zeros((h, w, 3))]. *)
Definition np_zeros (h w : Z) : M canvas :=
  if (h <? 0) || (w <? 0)
  then raise (ValueError "negative dimensions are not allowed")
  else ret (blank h w).

(** [np.ones((h, w, 3))]. *)
Definition np_ones (h w : Z) : M patch_t :=
  if (h <? 0) || (w <? 0)
  then raise (ValueError "negative dimensions are not allowed")
  else ret {| patch_rows := h; patch_cols := w; patch_colour := (1, 1, 1)%float |}.

(** [patch[:, :] = c] for one colour [c]. *)
Definition patch_assign (patch : patch_t) (c : triple) : patch_t :=
  {| patch_rows := patch_rows patch; patch_cols := patch_cols patch;
     patch_colour := c |}.

(** [img[v_start:v_stop, h_start:h_stop] = patch]: the slices are clipped to
    the image as Python does, and the patch must broadcast to the shape that
    is left. *)
Definition set_slice (img : canvas) (v_start v_stop h_start h_stop : Z)
  (patch : patch_t) : M canvas :=
  let '(v0, v1) := slice_indices v_start v_stop (height img) in
  let '(h0, h1) := slice_indices h_start h_stop (width img) in
  if broadcastable (patch_rows patch) (Z.max (v1 - v0) 0)
     && broadcastable (patch_cols patch) (Z.max (h1 - h0) 0)
  then ret (fill img v0 v1 h0 h1 (patch_colour patch))
  else raise (ValueError "could not broadcast input array").

(** [cv2.imwrite(file_name, img)]. *)
Definition imwrite (file_name : string) (img : canvas16) : M unit :=
  emit (EvImWrite file_name img).

(** ** The colour-science package *)

Module colour.

(** [colour.models.RGB_Colourspace], the fields the script reads. *)
Record RGB_Colourspace := {
  _name : string;
  whitepoint : list float;
  XYZ_to_RGB_matrix : list (list float)
}.

(** An entry of [colour.COLOURCHECKERS]: name, data, illuminant; a datum is
    [(index, label, xyY)]. *)
Definition ColourChecker : Type :=
  string * list (Z * string * triple) * list float.

(** The functions and tables of [colour] the script uses. *)
Record lib := {
  COLOURCHECKERS_get : string -> option ColourChecker;
  xyY_to_XYZ : list triple -> list triple;
  XYZ_to_RGB :
    list triple -> list float -> list float -> list (list float) -> string ->
    list triple;
  eotf_reverse_BT2100_HLG : list triple -> list triple;
  oetf_ST2084 : list triple -> list triple;
  BT2020_COLOURSPACE : RGB_Colourspace
}.

End colour.

(** ** The constants of the script *)

Record config := {
  TARGET_BRIGHTNESS : Z;
  COLOR_CHECKER_NAME : string;
  CHROMATIC_ADAPTATION_TRANSFORM : string;
  COLOR_SPACE : colour.RGB_Colourspace;
  OETF_TYPE : string;
  IMG_WIDTH : Z;
  IMG_HEIGHT : Z;
  COLOR_CHECKER_SIZE : float;
  COLOR_CHECKER_PADDING : float;
  COLOR_CHECKER_H_NUM : Z;
  COLOR_CHECKER_V_NUM : Z;
  IMG_MAX_LEVEL : Z
}.

Definition COLOR_CHECKER_EACH_NAME : list string :=
  [ "dark skin"; "light skin"; "blue sky"; "foliage";
    "blue flower"; "bluish green"; "orange"; "purplish blue";
    "moderate red"; "purple"; "yellow green"; "orange yellow";
    "blue"; "green"; "red"; "yellow";
    "magenta"; "cyan"; "white 9.5"; "neutral 8";
    "neutral 6.5"; "neutral 5"; "neutral 3.5"; "black 2" ]%string.

(** The values the file sets. *)
Definition reference_config (lib : colour.lib) : config := {|
  TARGET_BRIGHTNESS := 100;
  COLOR_CHECKER_NAME := "ColorChecker 2005";
  CHROMATIC_ADAPTATION_TRANSFORM := "CAT02";
  COLOR_SPACE := colour.BT2020_COLOURSPACE lib;
  OETF_TYPE := "HLG";
  IMG_WIDTH := 1920;
  IMG_HEIGHT := 1080;
  COLOR_CHECKER_SIZE := (1 / 4.5)%float;
  COLOR_CHECKER_PADDING := 0.01%float;
  COLOR_CHECKER_H_NUM := 6;
  COLOR_CHECKER_V_NUM := 4;
  IMG_MAX_LEVEL := 65535
|}.

(** The same file with another transfer function selected. *)
Definition with_oetf_type (cfg : config) (name : string) : config := {|
  TARGET_BRIGHTNESS := TARGET_BRIGHTNESS cfg;
  COLOR_CHECKER_NAME := COLOR_CHECKER_NAME cfg;
  CHROMATIC_ADAPTATION_TRANSFORM := CHROMATIC_ADAPTATION_TRANSFORM cfg;
  COLOR_SPACE := COLOR_SPACE cfg;
  OETF_TYPE := name;
  IMG_WIDTH := IMG_WIDTH cfg;
  IMG_HEIGHT := IMG_HEIGHT cfg;
  COLOR_CHECKER_SIZE := COLOR_CHECKER_SIZE cfg;
  COLOR_CHECKER_PADDING := COLOR_CHECKER_PADDING cfg;
  COLOR_CHECKER_H_NUM := COLOR_CHECKER_H_NUM cfg;
  COLOR_CHECKER_V_NUM := COLOR_CHECKER_V_NUM cfg;
  IMG_MAX_LEVEL := IMG_MAX_LEVEL cfg
|}.

(** The same file with another grid size. *)
Definition with_grid (cfg : config) (h_num v_num : Z) : config := {|
  TARGET_BRIGHTNESS := TARGET_BRIGHTNESS cfg;
  COLOR_CHECKER_NAME := COLOR_CHECKER_NAME cfg;
  CHROMATIC_ADAPTATION_TRANSFORM := CHROMATIC_ADAPTATION_TRANSFORM cfg;
  COLOR_SPACE := COLOR_SPACE cfg;
  OETF_TYPE := OETF_TYPE cfg;
  IMG_WIDTH := IMG_WIDTH cfg;
  IMG_HEIGHT := IMG_HEIGHT cfg;
  COLOR_CHECKER_SIZE := COLOR_CHECKER_SIZE cfg;
  COLOR_CHECKER_PADDING := COLOR_CHECKER_PADDING cfg;
  COLOR_CHECKER_H_NUM := h_num;
  COLOR_CHECKER_V_NUM := v_num;
  IMG_MAX_LEVEL := IMG_MAX_LEVEL cfg
|}.

(** ** The script *)

(** The basic parameters of the mosaic: start offsets, patch size, padding. *)
Record mosaic_geometry := {
  g_st_h : Z;
  g_st_v : Z;
  g_width : Z;
  g_height : Z;
  g_space : Z
}.

(** A rectangle of an image: origin (column, row) and size. *)
Record rect := {
  r_left : Z;
  r_top : Z;
  r_width : Z;
  r_height : Z
}.

Section Script.

Variable lib : colour.lib.
Variable cfg : config.

(** The [if]/[elif]/[else] that selects the transfer function when the
    module is loaded; [None] is Python's [None]. *)
Definition OETF_FUNC : option (list triple -> list triple) :=
  if String.eqb (OETF_TYPE cfg) "HLG" then Some (colour.eotf_reverse_BT2100_HLG lib)
  else if String.eqb (OETF_TYPE cfg) "ST2084" then Some (colour.oetf_ST2084 lib)
  else None.

(** The name under which a call of [OETF_FUNC] is logged. *)
Definition OETF_FUNC_name : string :=
  if String.eqb (OETF_TYPE cfg) "HLG" then "eotf_reverse_BT2100_HLG"
  else "oetf_ST2084".

Definition get_colorchecker_large_xyz_and_whitepoint (cc_name : string) :
  M (list triple * list float) :=
  emit (EvChartLookup cc_name) ;;;
  match colour.COLOURCHECKERS_get lib cc_name with
  | None => raise (TypeError "cannot unpack non-iterable NoneType object")
  | Some (_name, data, whitepoint) =>
      let temp_xyY := map (fun d => let '(_index, label, xyY) := d in xyY) data in
      emit (EvColourCall "xyY_to_XYZ" temp_xyY) ;;;
      let large_xyz := colour.xyY_to_XYZ lib temp_xyY in
      ret (large_xyz, whitepoint)
  end.

Definition get_linear_rgb_from_large_xyz (large_xyz : list triple)
  (whitepoint : list float) (color_space : colour.RGB_Colourspace) :
  M (list triple) :=
  let illuminant_XYZ := whitepoint in
  let illuminant_RGB := colour.whitepoint color_space in
  let chromatic_adaptation_transform := CHROMATIC_ADAPTATION_TRANSFORM cfg in
  let large_xyz_to_rgb_matrix := colour.XYZ_to_RGB_matrix color_space in
  emit (EvColourCall "XYZ_to_RGB" large_xyz) ;;;
  let rgb := colour.XYZ_to_RGB lib large_xyz illuminant_XYZ illuminant_RGB
               large_xyz_to_rgb_matrix chromatic_adaptation_transform in
  ret rgb.

Definition get_rgb_with_prime (rgb : list triple)
  (oetf_func : option (list triple -> list triple)) : M (list triple) :=
  let rgb_bright := array_mul_int rgb (TARGET_BRIGHTNESS cfg) in
  match oetf_func with
  | None => raise (TypeError "'NoneType' object is not callable")
  | Some f =>
      emit (EvColourCall OETF_FUNC_name rgb_bright) ;;;
      let rgb_prime := f rgb_bright in
      ret rgb_prime
  end.

(** [preview_image(img)] with its defaults [order='rgb'], [over_disp=False]:
    the window shows [img[:, :, ::-1]]. *)
Definition preview_image (img : canvas) : M unit :=
  emit (EvPreview (reverse_channels img)).

(** One value of an image quantised: [np.uint16(np.round(x * IMG_MAX_LEVEL))]. *)
Definition quantize (x : float) : Z :=
  np_uint16 (np_round (x * float_of_int (IMG_MAX_LEVEL cfg))%float).

Definition _get_16bit_img (img : canvas) : canvas16 :=
  map (map (map3 quantize)) img.

(** ["{:02d}".format(n)]. *)
Definition format_02d (n : Z) : string :=
  let s := NilZero.string_of_int (Z.to_int n) in
  if (String.length s <? 2)%nat then ("0" ++ s)%string else s.

Definition measure_file_str (cs oetf : string) (n : Z) (name : string) : string :=
  ("./output/ColorChecker_Measure_Patch_" ++ cs ++ "_" ++ oetf ++ "_"
   ++ format_02d n ++ "_" ++ name ++ ".tiff")%string.

Definition all_patch_file_str (cs oetf : string) : string :=
  ("./output/ColorChecker_All_" ++ cs ++ "_" ++ oetf ++ "_.tiff")%string.

(** The start offsets and sizes of the mosaic, each the expression of the
    script. *)
Definition patch_st_h : M Z :=
  let W := float_of_int (IMG_WIDTH cfg) in
  let H := float_of_int (IMG_HEIGHT cfg) in
  let N := float_of_int (COLOR_CHECKER_H_NUM cfg) in
  int_ (W / 2.0
        - (H * COLOR_CHECKER_SIZE cfg * N / 2.0
           + (H * COLOR_CHECKER_PADDING cfg * (N / 2.0 - 0.5)) / 2.0))%float.

Definition patch_st_v : M Z :=
  let H := float_of_int (IMG_HEIGHT cfg) in
  let N := float_of_int (COLOR_CHECKER_V_NUM cfg) in
  int_ (H / 2.0
        - (H * COLOR_CHECKER_SIZE cfg * N / 2.0
           + (H * COLOR_CHECKER_PADDING cfg * (N / 2.0 - 0.5)) / 2.0))%float.

Definition patch_width : M Z :=
  int_ (float_of_int (IMG_HEIGHT cfg) * COLOR_CHECKER_SIZE cfg)%float.

Definition patch_space : M Z :=
  int_ (float_of_int (IMG_HEIGHT cfg) * COLOR_CHECKER_PADDING cfg)%float.

(** The basic parameters of the mosaic, computed in the order of the
    script; [patch_height = patch_width]. *)
Definition mosaic_layout : M mosaic_geometry :=
  st_h <- patch_st_h ;;
  st_v <- patch_st_v ;;
  pw <- patch_width ;;
  let ph := pw in
  sp <- patch_space ;;
  ret {| g_st_h := st_h; g_st_v := st_v; g_width := pw; g_height := ph;
         g_space := sp |}.

Definition h_num : Z := 6.
Definition v_num : Z := 4.

(** The rectangle the first loop paints for [idx]. *)
Definition mosaic_rect (g : mosaic_geometry) (idx : Z) : rect :=
  let v_idx := idx / h_num in
  let h_idx := idx mod h_num in
  let st_h := g_st_h g + (g_width g + g_space g) * h_idx in
  let st_v := g_st_v g + (g_height g + g_space g) * v_idx in
  {| r_left := st_h; r_top := st_v; r_width := g_width g; r_height := g_height g |}.

(** The body of the first loop. *)
Definition draw_patch (g : mosaic_geometry) (rgb : list triple) (idx : Z)
  (img_all_patch : canvas) : M canvas :=
  let rc := mosaic_rect g idx in
  patch <- np_ones (g_height g) (g_width g) ;;
  c <- getitem rgb idx ;;
  let patch := patch_assign patch c in
  set_slice img_all_patch (r_top rc) (r_top rc + g_height g)
    (r_left rc) (r_left rc + g_width g) patch.

(** The rectangle of the single-patch images. *)
Definition measure_rect : M rect :=
  let img_height := IMG_HEIGHT cfg in
  let img_width := IMG_WIDTH cfg in
  patch_width <- int_ (float_of_int img_width * 0.15)%float ;;
  let patch_height := patch_width in
  let st_h := (img_width / 2) - (patch_width / 2) in
  let st_v := (img_height / 2) - (patch_height / 2) in
  ret {| r_left := st_h; r_top := st_v;
         r_width := patch_width; r_height := patch_height |}.

(** The body of the second loop; the one patch and the one image
    [img_each_patch] are painted again and the image written at every turn. *)
Definition export_patch (rc : rect) (rgb : list triple) (idx : Z)
  (st : patch_t * canvas) : M (patch_t * canvas) :=
  let '(patch, img_each_patch) := st in
  c <- getitem rgb idx ;;
  let patch := patch_assign patch c in
  img <- set_slice img_each_patch (r_top rc) (r_top rc + r_height rc)
           (r_left rc) (r_left rc + r_width rc) patch ;;
  name <- getitem COLOR_CHECKER_EACH_NAME idx ;;
  let file_name := measure_file_str (colour._name (COLOR_SPACE cfg)) (OETF_TYPE cfg)
                     (idx + 1) name in
  imwrite file_name (_get_16bit_img (reverse_channels img)) ;;;
  ret (patch, img).

Definition make_color_checker_image (rgb : list triple) : M unit :=
  let img_height := IMG_HEIGHT cfg in
  let img_width := IMG_WIDTH cfg in
  g <- mosaic_layout ;;
  img_all_patch <- np_zeros img_height img_width ;;
  img_each_patch <- np_zeros img_height img_width ;;
  img_all_patch <- for_range (h_num * v_num) (draw_patch g rgb) img_all_patch ;;
  preview_image img_all_patch ;;;
  let file_name := all_patch_file_str (colour._name (COLOR_SPACE cfg)) (OETF_TYPE cfg) in
  imwrite file_name (_get_16bit_img (reverse_channels img_all_patch)) ;;;
  rc <- measure_rect ;;
  patch <- np_ones (r_height rc) (r_width rc) ;;
  _st <- for_range (h_num * v_num) (export_patch rc rgb) (patch, img_each_patch) ;;
  ret tt.

Definition main_func : M unit :=
  p <- get_colorchecker_large_xyz_and_whitepoint (COLOR_CHECKER_NAME cfg) ;;
  let '(large_xyz, illuminant) := p in
  rgb <- get_linear_rgb_from_large_xyz large_xyz illuminant (COLOR_SPACE cfg) ;;
  rgb_prime <- get_rgb_with_prime rgb OETF_FUNC ;;
  make_color_checker_image rgb_prime.

End Script.

(** ** Vocabulary of the specification *)

(** A run from the empty log. *)
Definition run {A} (m : M A) : list event * (exn + A) := m [].

(** [rc] painted in one colour. *)
Definition paint (img : canvas) (rc : rect) (col : triple) : canvas :=
  fill img (r_top rc) (r_top rc + r_height rc)
    (r_left rc) (r_left rc + r_width rc) col.

Definition in_rect (rc : rect) (r c : Z) : bool :=
  in_range (r_top rc) (r_top rc + r_height rc) r
  && in_range (r_left rc) (r_left rc + r_width rc) c.

(** [rc] lies inside an image of [h] rows and [w] columns. *)
Definition fits (rc : rect) (h w : Z) : bool :=
  (0 <=? r_top rc) && (r_top rc + r_height rc <=? h)
  && (0 <=? r_left rc) && (r_left rc + r_width rc <=? w)
  && (0 <=? r_height rc) && (0 <=? r_width rc).

(** [rgb[idx]], black when there is no such entry. *)
Definition colour_of (rgb : list triple) (idx : Z) : triple :=
  default (0, 0, 0)%float (rgb !! Z.to_nat idx).

(** The rectangles of the first loop, in the order they are painted. *)
Definition mosaic_rects (g : mosaic_geometry) : list rect :=
  map (mosaic_rect g) (zrange 0 (Z.to_nat (h_num * v_num))).

(** The rectangles of the loop that lie in the first [cols] columns and the
    first [rows] rows of the grid. *)
Definition grid_rects (g : mosaic_geometry) (cols rows : Z) : list rect :=
  flat_map (fun row => map (fun col => mosaic_rect g (row * h_num + col))
                         (zrange 0 (Z.to_nat cols)))
    (zrange 0 (Z.to_nat rows)).

(** The image after the first [n] turns of the first loop. *)
Definition mosaic_image (g : mosaic_geometry) (rgb : list triple) (h w : Z)
  (n : nat) : canvas :=
  fold_left (fun img idx => paint img (mosaic_rect g idx) (colour_of rgb idx))
    (zrange 0 n) (blank h w).

(** The smallest rectangle around a list of rectangles, as
    (left, top, right, bottom), right and bottom exclusive. *)
Definition bounding_box (l : list rect) : option (Z * Z * Z * Z) :=
  match l with
  | [] => None
  | rc :: l' =>
      Some (fold_left
              (fun '(x0, y0, x1, y1) rc =>
                 (Z.min x0 (r_left rc), Z.min y0 (r_top rc),
                  Z.max x1 (r_left rc + r_width rc),
                  Z.max y1 (r_top rc + r_height rc)))
              l'
              (r_left rc, r_top rc, r_left rc + r_width rc,
               r_top rc + r_height rc))
  end.

(** A box is centred in an image of [h] rows and [w] columns to within
    [tol] pixels on both axes; the centres are compared doubled, so that
    the statement stays in the integers. *)
Definition centred_within (tol : Z) (box : Z * Z * Z * Z) (h w : Z) : Prop :=
  let '(x0, y0, x1, y1) := box in
  Z.abs (x0 + x1 - w) <= 2 * tol /\ Z.abs (y0 + y1 - h) <= 2 * tol.

(** The [EvImWrite] events of a log, in order. *)
Definition writes (log : list event) : list (string * canvas16) :=
  omap (fun ev => match ev with
                  | EvImWrite f img => Some (f, img)
                  | _ => None
                  end) log.

(** The events of a log that are calls into the colour-science package
    made on patch data. *)
Definition colour_calls (log : list event) : list (string * list triple) :=
  omap (fun ev => match ev with
                  | EvColourCall fn arg => Some (fn, arg)
                  | _ => None
                  end) log.

(** The events of the second loop for the indices [start .. start + n). *)
Definition measure_events (cfg : config) (rc : rect) (rgb : list triple)
  (start : Z) (n : nat) : list event :=
  map (fun idx =>
         EvImWrite
           (measure_file_str (colour._name (COLOR_SPACE cfg)) (OETF_TYPE cfg)
              (idx + 1) (default ""%string (COLOR_CHECKER_EACH_NAME !! Z.to_nat idx)))
           (_get_16bit_img cfg
              (reverse_channels
                 (paint (blank (IMG_HEIGHT cfg) (IMG_WIDTH cfg)) rc
                    (colour_of rgb idx)))))
    (zrange start n).

(** A stand-in for the colour-science package that leaves every array as
    it is; it serves where a concrete package is needed. *)
Definition identity_lib : colour.lib := {|
  colour.COLOURCHECKERS_get := fun name =>
    if String.eqb name "ColorChecker 2005"
    then Some (name,
               map (fun k => (k + 1, default ""%string
                                       (COLOR_CHECKER_EACH_NAME !! Z.to_nat k),
                              (float_of_int k / 16, 0.5, -0.25)%float))
                 (zrange 0 24),
               [0.34570; 0.35850]%float)
    else None;
  colour.xyY_to_XYZ := fun l => l;
  colour.XYZ_to_RGB := fun l _ _ _ _ => l;
  colour.eotf_reverse_BT2100_HLG := fun l => l;
  colour.oetf_ST2084 := fun l => l;
  colour.BT2020_COLOURSPACE :=
    {| colour._name := "ITU-R BT.2020";
       colour.whitepoint := [0.3127; 0.3290]%float;
       colour.XYZ_to_RGB_matrix := [] |}
|}.

(** The geometry the reference constants give (see [reference_layout]). *)
Definition reference_geometry : mosaic_geometry :=
  {| g_st_h := 226; g_st_v := 51; g_width := 240; g_height := 240;
     g_space := 10 |}.

Definition reference_measure_rect : rect :=
  {| r_left := 816; r_top := 396; r_width := 288; r_height := 288 |}.

(** The index of the rectangle painted last over the pixel [(r, c)] among
    the first [n] turns of the first loop. *)
Fixpoint top_patch (g : mosaic_geometry) (n : nat) (r c : Z) : option Z :=
  match n with
  | O => None
  | S n' =>
      if in_rect (mosaic_rect g (Z.of_nat n')) r c then Some (Z.of_nat n')
      else top_patch g n' r c
  end.

(** A run that fails before any patch data went through the
    colour-science package and before any image was shown or written. *)
Definition fails_before_processing (lib : colour.lib) (cfg : config) : Prop :=
  exists log e,
    run (main_func lib cfg) = (log, inl e)
    /\ colour_calls log = [] /\ writes log = []
    /\ forall img, ~ In (EvPreview img) log.

(** Twenty-four colours that all differ, some of them outside [0, 1]. *)
Definition demo_rgb : list triple :=
  map (fun k => (float_of_int k / 16, 0.5, -0.25)%float) (zrange 0 24).

(** The [xyY] column of the chart data. *)
Definition xyY_of (data : list (Z * string * triple)) : list triple :=
  map (fun d => let '(_index, label, xyY) := d in xyY) data.

(** The linear RGB values the converter returns for chart data [data] with
    white point [wp]: the result of the one call of [XYZ_to_RGB]. *)
Definition linear_rgb (lib : colour.lib) (cfg : config)
  (data : list (Z * string * triple)) (wp : list float) : list triple :=
  colour.XYZ_to_RGB lib (colour.xyY_to_XYZ lib (xyY_of data)) wp
    (colour.whitepoint (COLOR_SPACE cfg))
    (colour.XYZ_to_RGB_matrix (COLOR_SPACE cfg))
    (CHROMATIC_ADAPTATION_TRANSFORM cfg).

(** The events of the three stages before the compositor. *)
Definition pipeline_events (lib : colour.lib) (cfg : config)
  (data : list (Z * string * triple)) (wp : list float) : list event :=
  [ EvChartLookup (COLOR_CHECKER_NAME cfg);
    EvColourCall "xyY_to_XYZ" (xyY_of data);
    EvColourCall "XYZ_to_RGB" (colour.xyY_to_XYZ lib (xyY_of data)) ].

(** The [EvPreview] events of a log, in order. *)
Definition previews (log : list event) : list canvas :=
  omap (fun ev => match ev with
                  | EvPreview img => Some img
                  | _ => None
                  end) log.

(** The decimal digit [d] as a character, and a number below 100 written
    with two digits. *)
Definition digit_char (d : Z) : Ascii.ascii :=
  Ascii.ascii_of_nat (48 + Z.to_nat d).

Definition two_digits (n : Z) : string :=
  String (digit_char (n / 10)) (String (digit_char (n mod 10)) EmptyString).

(** * Properties *)

(** ** The monad and the loops *)

Lemma bind_ret_l {A B} (a : A) (k : A -> M B) log :
  bind (ret a) k log = k a log.
Proof. reflexivity. Qed.

Lemma bind_ok {A B} (m : M A) (k : A -> M B) log log' a :
  m log = (log', inr a) -> bind m k log = k a log'.
Proof. unfold bind. intros ->. reflexivity. Qed.

Lemma bind_raise {A B} (m : M A) (k : A -> M B) log log' e :
  m log = (log', inl e) -> bind m k log = (log', inl e).
Proof. unfold bind. intros ->. reflexivity. Qed.

(** A loop whose every turn succeeds and keeps [I] ends with [I]. *)
Lemma for_loop_inv {St} (I : Z -> St -> list event -> Prop)
  (body : Z -> St -> M St) (n : nat) :
  forall start s log,
    I start s log ->
    (forall i s log, start <= i < start + Z.of_nat n -> I i s log ->
       exists s' log', body i s log = (log', inr s') /\ I (i + 1) s' log') ->
    exists s' log',
      for_loop body start n s log = (log', inr s')
      /\ I (start + Z.of_nat n) s' log'.
Proof.
  induction n as [|n IH]; intros start s log HI Hstep.
  - exists s, log. split; [reflexivity|]. now replace (start + Z.of_nat 0) with start by lia.
  - destruct (Hstep start s log ltac:(lia) HI) as (s1 & log1 & Hb & HI1).
    destruct (IH (start + 1) s1 log1 HI1) as (s2 & log2 & Hl & HI2).
    + intros i s' log' Hi. apply Hstep. lia.
    + exists s2, log2. split.
      * simpl. rewrite (bind_ok _ _ _ _ _ Hb). exact Hl.
      * now replace (start + Z.of_nat (S n)) with (start + 1 + Z.of_nat n) by lia.
Qed.

Lemma zrange_length start n : length (zrange start n) = n.
Proof. revert start. induction n; intros; simpl; auto. Qed.

Lemma zrange_lookup n : forall start (i : nat),
  (i < n)%nat -> zrange start n !! i = Some (start + Z.of_nat i).
Proof.
  induction n as [|n IH]; intros start i Hi; [lia|].
  destruct i as [|i]; simpl.
  - f_equal. lia.
  - rewrite IH by lia. f_equal. lia.
Qed.

Lemma zrange_snoc n : forall start,
  zrange start (S n) = zrange start n ++ [start + Z.of_nat n].
Proof.
  induction n as [|n IH]; intros start.
  - simpl. do 2 f_equal. lia.
  - change (zrange start (S (S n))) with (start :: zrange (start + 1) (S n)).
    rewrite IH. simpl. do 3 f_equal. lia.
Qed.

Lemma zrange_elem start n k :
  In k (zrange start n) <-> start <= k < start + Z.of_nat n.
Proof.
  revert start. induction n as [|n IH]; intros start; simpl.
  - lia.
  - rewrite IH. lia.
Qed.

(** ** Images *)

Lemma pixel_fill img v0 v1 h0 h1 col r c :
  pixel (fill img v0 v1 h0 h1 col) r c
  = (fun p => if in_range v0 v1 r && in_range h0 h1 c then col else p)
      <$> pixel img r c.
Proof.
  unfold pixel. destruct ((0 <=? r) && (0 <=? c)) eqn:Hb; [|reflexivity].
  apply andb_prop in Hb as [Hr Hc].
  apply Z.leb_le in Hr. apply Z.leb_le in Hc.
  unfold fill. rewrite list_lookup_imap.
  destruct (img !! Z.to_nat r) as [row|]; simpl; [|reflexivity].
  rewrite Z2Nat.id by lia.
  destruct (in_range v0 v1 r); simpl.
  - rewrite list_lookup_imap. rewrite Z2Nat.id by lia. reflexivity.
  - destruct (row !! Z.to_nat c); reflexivity.
Qed.

Lemma pixel_paint img rc col r c :
  pixel (paint img rc col) r c
  = (fun p => if in_rect rc r c then col else p) <$> pixel img r c.
Proof. unfold paint, in_rect. apply pixel_fill. Qed.

Lemma pixel_blank h w r c :
  pixel (blank h w) r c
  = if in_range 0 h r && in_range 0 w c then Some (0, 0, 0)%float else None.
Proof.
  unfold pixel, blank, in_range.
  destruct (0 <=? r) eqn:Hr; simpl; [|reflexivity].
  destruct (0 <=? c) eqn:Hc; simpl.
  2:{ rewrite andb_false_r. reflexivity. }
  apply Z.leb_le in Hr. apply Z.leb_le in Hc.
  destruct (r <? h) eqn:Hrh; simpl.
  - apply Z.ltb_lt in Hrh.
    rewrite lookup_replicate_2 by lia.
    destruct (c <? w) eqn:Hcw.
    + apply Z.ltb_lt in Hcw. rewrite lookup_replicate_2 by lia. reflexivity.
    + apply Z.ltb_ge in Hcw. apply lookup_replicate_None. lia.
  - apply Z.ltb_ge in Hrh.
    destruct (replicate _ _ !! Z.to_nat r) eqn:E; [|reflexivity].
    apply lookup_replicate in E as [_ E]. lia.
Qed.

Lemma pixel_map {A B} (f : A -> B) (img : list (list A)) r c :
  pixel (map (map f) img) r c = f <$> pixel img r c.
Proof.
  unfold pixel. destruct ((0 <=? r) && (0 <=? c)); [|reflexivity].
  change (map (map f) img) with (fmap (M:=list) (map f) img).
  rewrite list_lookup_fmap.
  destruct (img !! Z.to_nat r) as [row|]; simpl; [|reflexivity].
  change (map f row) with (fmap (M:=list) f row).
  apply list_lookup_fmap.
Qed.

Lemma height_fill img v0 v1 h0 h1 col :
  height (fill img v0 v1 h0 h1 col) = height img.
Proof. unfold height, fill. now rewrite length_imap. Qed.

Lemma width_fill img v0 v1 h0 h1 col :
  width (fill img v0 v1 h0 h1 col) = width img.
Proof.
  unfold width, fill. destruct img as [|row img]; simpl; [reflexivity|].
  destruct (in_range v0 v1 (Z.of_nat 0)); [|reflexivity]. now rewrite length_imap.
Qed.

Lemma height_blank h w : 0 <= h -> height (blank h w) = h.
Proof. intros. unfold height, blank. rewrite length_replicate. lia. Qed.

Lemma width_blank h w : 0 < h -> 0 <= w -> width (blank h w) = w.
Proof.
  intros Hh Hw. unfold width, blank.
  destruct (Z.to_nat h) eqn:E; [lia|]. simpl. rewrite length_replicate. lia.
Qed.

Lemma paint_paint img rc c1 c2 :
  paint (paint img rc c1) rc c2 = paint img rc c2.
Proof.
  unfold paint, fill. apply list_eq. intros i.
  rewrite !list_lookup_imap.
  destruct (img !! i) as [row|]; simpl; [|reflexivity]. f_equal.
  destruct (in_range _ _ (Z.of_nat i)); [|reflexivity].
  apply list_eq. intros j. rewrite !list_lookup_imap.
  destruct (row !! j); simpl; [|reflexivity].
  destruct (in_range _ _ (Z.of_nat j)); reflexivity.
Qed.

Lemma height_paint img rc col : height (paint img rc col) = height img.
Proof. apply height_fill. Qed.

Lemma width_paint img rc col : width (paint img rc col) = width img.
Proof. apply width_fill. Qed.

Lemma mosaic_image_S g rgb h w n :
  mosaic_image g rgb h w (S n)
  = paint (mosaic_image g rgb h w n) (mosaic_rect g (Z.of_nat n))
      (colour_of rgb (Z.of_nat n)).
Proof.
  unfold mosaic_image. rewrite zrange_snoc, fold_left_app. reflexivity.
Qed.

Lemma height_mosaic_image g rgb h w n :
  0 <= h -> height (mosaic_image g rgb h w n) = h.
Proof.
  intros Hh. induction n as [|n IH].
  - now apply height_blank.
  - now rewrite mosaic_image_S, height_paint.
Qed.

Lemma width_mosaic_image g rgb h w n :
  0 < h -> 0 <= w -> width (mosaic_image g rgb h w n) = w.
Proof.
  intros Hh Hw. induction n as [|n IH].
  - now apply width_blank.
  - now rewrite mosaic_image_S, width_paint.
Qed.

(** ** The steps of the script *)

(** The assignment to a slice that lies inside the image paints it. *)
Lemma set_slice_fits img rc patch log :
  fits rc (height img) (width img) = true ->
  patch_rows patch = r_height rc ->
  patch_cols patch = r_width rc ->
  set_slice img (r_top rc) (r_top rc + r_height rc)
    (r_left rc) (r_left rc + r_width rc) patch log
  = (log, inr (paint img rc (patch_colour patch))).
Proof.
  unfold fits. rewrite !andb_true_iff, !Z.leb_le.
  intros [[[[[Ht Hb] Hl] Hr] Hh] Hw] Hrows Hcols.
  unfold set_slice, slice_indices, slice_index.
  destruct (r_top rc <? 0) eqn:E1; [apply Z.ltb_lt in E1; lia|].
  destruct (r_top rc + r_height rc <? 0) eqn:E2; [apply Z.ltb_lt in E2; lia|].
  destruct (r_left rc <? 0) eqn:E3; [apply Z.ltb_lt in E3; lia|].
  destruct (r_left rc + r_width rc <? 0) eqn:E4; [apply Z.ltb_lt in E4; lia|].
  rewrite !Z.min_l by lia.
  rewrite Hrows, Hcols. unfold broadcastable.
  replace (Z.max (r_top rc + r_height rc - r_top rc) 0) with (r_height rc) by lia.
  replace (Z.max (r_left rc + r_width rc - r_left rc) 0) with (r_width rc) by lia.
  rewrite !Z.eqb_refl. reflexivity.
Qed.

Lemma getitem_ok {A} (l : list A) idx a log :
  0 <= idx -> l !! Z.to_nat idx = Some a -> getitem l idx log = (log, inr a).
Proof.
  intros Hi Hl. unfold getitem.
  destruct (idx <? 0) eqn:E; [apply Z.ltb_lt in E; lia|]. now rewrite Hl.
Qed.

Lemma np_ones_ok h w log :
  0 <= h -> 0 <= w ->
  np_ones h w log
  = (log, inr {| patch_rows := h; patch_cols := w;
                 patch_colour := (1, 1, 1)%float |}).
Proof.
  intros Hh Hw. unfold np_ones.
  destruct (h <? 0) eqn:E1; [apply Z.ltb_lt in E1; lia|].
  destruct (w <? 0) eqn:E2; [apply Z.ltb_lt in E2; lia|]. reflexivity.
Qed.

Lemma np_zeros_ok h w log :
  0 <= h -> 0 <= w -> np_zeros h w log = (log, inr (blank h w)).
Proof.
  intros Hh Hw. unfold np_zeros.
  destruct (h <? 0) eqn:E1; [apply Z.ltb_lt in E1; lia|].
  destruct (w <? 0) eqn:E2; [apply Z.ltb_lt in E2; lia|]. reflexivity.
Qed.

Lemma colour_of_lookup rgb idx :
  0 <= idx < Z.of_nat (length rgb) ->
  rgb !! Z.to_nat idx = Some (colour_of rgb idx).
Proof.
  intros Hi. unfold colour_of.
  destruct (rgb !! Z.to_nat idx) eqn:E; [reflexivity|].
  apply lookup_ge_None in E. lia.
Qed.

Lemma fits_sizes rc h w : fits rc h w = true -> 0 <= r_height rc /\ 0 <= r_width rc.
Proof. unfold fits. rewrite !andb_true_iff, !Z.leb_le. tauto. Qed.

(** One turn of the first loop. *)
Lemma draw_patch_ok g rgb idx img log :
  fits (mosaic_rect g idx) (height img) (width img) = true ->
  0 <= idx < Z.of_nat (length rgb) ->
  draw_patch g rgb idx img log
  = (log, inr (paint img (mosaic_rect g idx) (colour_of rgb idx))).
Proof.
  intros Hfit Hidx. unfold draw_patch.
  destruct (fits_sizes _ _ _ Hfit) as [Hh Hw]. simpl in Hh, Hw.
  rewrite (bind_ok _ _ _ _ _ (np_ones_ok _ _ log Hh Hw)).
  rewrite (bind_ok _ _ _ _ _
             (getitem_ok rgb idx _ log (proj1 Hidx) (colour_of_lookup rgb idx Hidx))).
  apply (set_slice_fits img (mosaic_rect g idx)); [exact Hfit|reflexivity..].
Qed.

(** The first loop paints the mosaic rectangles in order and logs nothing. *)
Lemma draw_loop_ok g rgb h w (n : nat) log :
  0 < h -> 0 <= w ->
  (forall idx, 0 <= idx < Z.of_nat n -> fits (mosaic_rect g idx) h w = true) ->
  (n <= length rgb)%nat ->
  for_loop (draw_patch g rgb) 0 n (blank h w) log
  = (log, inr (mosaic_image g rgb h w n)).
Proof.
  intros Hh Hw Hfit Hlen.
  destruct (for_loop_inv
              (fun i img log' => log' = log /\ img = mosaic_image g rgb h w (Z.to_nat i))
              (draw_patch g rgb) n 0 (blank h w) log) as (img & log' & Hrun & -> & ->).
  - split; reflexivity.
  - intros i img log' Hi [-> ->].
    eexists _, _. split.
    + apply draw_patch_ok; [|lia].
      rewrite height_mosaic_image, width_mosaic_image by lia. apply Hfit. lia.
    + split; [reflexivity|].
      replace (Z.to_nat (i + 1)) with (S (Z.to_nat i)) by lia.
      rewrite mosaic_image_S. now rewrite Z2Nat.id by lia.
  - rewrite Hrun. replace (Z.to_nat (0 + Z.of_nat n)) with n by lia. reflexivity.
Qed.

Lemma measure_events_S cfg rc rgb start n :
  measure_events cfg rc rgb start (S n)
  = measure_events cfg rc rgb start n
    ++ measure_events cfg rc rgb (start + Z.of_nat n) 1.
Proof. unfold measure_events. rewrite zrange_snoc, map_app. reflexivity. Qed.

Lemma measure_events_length cfg rc rgb start n :
  length (measure_events cfg rc rgb start n) = n.
Proof. unfold measure_events. now rewrite length_map, zrange_length. Qed.

Lemma each_name_lookup idx :
  0 <= idx < 24 ->
  COLOR_CHECKER_EACH_NAME !! Z.to_nat idx
  = Some (default ""%string (COLOR_CHECKER_EACH_NAME !! Z.to_nat idx)).
Proof.
  intros Hi. destruct (COLOR_CHECKER_EACH_NAME !! Z.to_nat idx) eqn:E; [reflexivity|].
  apply lookup_ge_None in E. simpl in E. lia.
Qed.

(** One turn of the second loop: the rectangle is painted over what the
    turn before left in the image, and the image is written. *)
Lemma export_patch_ok cfg rc rgb idx patch img log :
  fits rc (height img) (width img) = true ->
  patch_rows patch = r_height rc ->
  patch_cols patch = r_width rc ->
  0 <= idx < Z.of_nat (length rgb) ->
  idx < 24 ->
  export_patch cfg rc rgb idx (patch, img) log
  = (log ++ [EvImWrite
               (measure_file_str (colour._name (COLOR_SPACE cfg)) (OETF_TYPE cfg)
                  (idx + 1)
                  (default ""%string (COLOR_CHECKER_EACH_NAME !! Z.to_nat idx)))
               (_get_16bit_img cfg
                  (reverse_channels (paint img rc (colour_of rgb idx))))],
     inr (patch_assign patch (colour_of rgb idx),
          paint img rc (colour_of rgb idx))).
Proof.
  intros Hfit Hrows Hcols Hidx H24. unfold export_patch.
  rewrite (bind_ok _ _ _ _ _
             (getitem_ok rgb idx _ log (proj1 Hidx) (colour_of_lookup rgb idx Hidx))).
  rewrite (bind_ok _ _ _ _ _
             (set_slice_fits img rc (patch_assign patch (colour_of rgb idx)) log
                Hfit Hrows Hcols)).
  rewrite (bind_ok _ _ _ _ _
             (getitem_ok COLOR_CHECKER_EACH_NAME idx _ log (proj1 Hidx)
                (each_name_lookup idx ltac:(lia)))).
  reflexivity.
Qed.

(** The second loop writes one image per index, each the blank image with
    the one rectangle painted in the colour of that index. *)
Lemma export_loop_ok cfg rc rgb (n : nat) patch log :
  let h := IMG_HEIGHT cfg in
  let w := IMG_WIDTH cfg in
  0 < h -> 0 <= w ->
  fits rc h w = true ->
  patch_rows patch = r_height rc ->
  patch_cols patch = r_width rc ->
  (n <= length rgb)%nat -> (n <= 24)%nat ->
  exists st,
    for_loop (export_patch cfg rc rgb) 0 n (patch, blank h w) log
    = (log ++ measure_events cfg rc rgb 0 n, inr st).
Proof.
  intros h w Hh Hw Hfit Hrows Hcols Hlen H24.
  destruct (for_loop_inv
              (fun i (st : patch_t * canvas) log' =>
                 log' = log ++ measure_events cfg rc rgb 0 (Z.to_nat i)
                 /\ patch_rows (fst st) = r_height rc
                 /\ patch_cols (fst st) = r_width rc
                 /\ height (snd st) = h /\ width (snd st) = w
                 /\ forall col, paint (snd st) rc col = paint (blank h w) rc col)
              (export_patch cfg rc rgb) n 0 (patch, blank h w) log)
    as (st & log' & Hrun & -> & _).
  - simpl. rewrite app_nil_r, height_blank, width_blank by lia.
    repeat split; auto.
  - intros i [p img] log' Hi (-> & Hr & Hc & Hhi & Hwi & Hp). simpl in *.
    eexists _, _. split.
    + apply export_patch_ok; try assumption; try lia.
      rewrite Hhi, Hwi. exact Hfit.
    + simpl. rewrite height_paint, width_paint.
      repeat split; try assumption.
      * replace (Z.to_nat (i + 1)) with (S (Z.to_nat i)) by lia.
        rewrite measure_events_S, app_assoc. f_equal.
        unfold measure_events. simpl. rewrite Hp.
        replace (0 + Z.of_nat (Z.to_nat i)) with i by lia. reflexivity.
      * intros col. rewrite paint_paint. apply Hp.
  - exists st. rewrite Hrun.
    replace (Z.to_nat (0 + Z.of_nat n)) with n by lia. reflexivity.
Qed.

(** [int] logs nothing. *)
Lemma int__log x log : int_ x log = (log, snd (int_ x [])).
Proof.
  unfold int_. destruct (py_int x); [reflexivity|].
  destruct (Prim2SF x); reflexivity.
Qed.

Lemma mosaic_layout_log cfg log :
  mosaic_layout cfg log = (log, snd (mosaic_layout cfg [])).
Proof.
  unfold mosaic_layout, patch_st_h, patch_st_v, patch_width, patch_space, bind, int_.
  repeat match goal with
         | |- context [py_int ?x] => destruct (py_int x)
         end;
    repeat match goal with
           | |- context [Prim2SF ?x] => destruct (Prim2SF x)
           end; reflexivity.
Qed.

Lemma measure_rect_log cfg log :
  measure_rect cfg log = (log, snd (measure_rect cfg [])).
Proof.
  unfold measure_rect, bind, int_.
  destruct (py_int _); [reflexivity|].
  destruct (Prim2SF _); reflexivity.
Qed.

(** The whole compositor, when the layout succeeds and every rectangle
    lies inside the image: the mosaic is shown and written, then the 24
    single-patch images are written. *)
Lemma make_color_checker_image_ok cfg rgb g rc log :
  let h := IMG_HEIGHT cfg in
  let w := IMG_WIDTH cfg in
  snd (mosaic_layout cfg []) = inr g ->
  snd (measure_rect cfg []) = inr rc ->
  0 < h -> 0 <= w ->
  (forall idx, 0 <= idx < 24 -> fits (mosaic_rect g idx) h w = true) ->
  fits rc h w = true ->
  (24 <= length rgb)%nat ->
  make_color_checker_image cfg rgb log
  = (log
     ++ [EvPreview (reverse_channels (mosaic_image g rgb h w 24));
         EvImWrite
           (all_patch_file_str (colour._name (COLOR_SPACE cfg)) (OETF_TYPE cfg))
           (_get_16bit_img cfg (reverse_channels (mosaic_image g rgb h w 24)))]
     ++ measure_events cfg rc rgb 0 24,
     inr tt).
Proof.
  intros h w Hg Hrc Hh Hw Hfit Hfrc Hlen.
  unfold make_color_checker_image.
  rewrite (bind_ok _ _ log log g)
    by (rewrite mosaic_layout_log; now rewrite Hg).
  assert (Hh0 : 0 <= h) by lia.
  rewrite (bind_ok _ _ _ _ _ (np_zeros_ok h w log Hh0 Hw)).
  rewrite (bind_ok _ _ _ _ _ (np_zeros_ok h w log Hh0 Hw)).
  unfold for_range. change (Z.to_nat (h_num * v_num)) with 24%nat.
  assert (Hfit' : forall idx, 0 <= idx < Z.of_nat 24 ->
                    fits (mosaic_rect g idx) h w = true)
    by (intros; apply Hfit; lia).
  rewrite (bind_ok _ _ _ _ _ (draw_loop_ok g rgb h w 24 log Hh Hw Hfit' Hlen)).
  unfold preview_image, imwrite.
  unfold bind at 1. unfold emit at 1.
  unfold bind at 1. unfold emit at 1.
  rewrite (bind_ok _ _ _ _ rc)
    by (rewrite measure_rect_log; now rewrite Hrc).
  destruct (fits_sizes _ _ _ Hfrc) as [Hrh Hrw].
  rewrite (bind_ok _ _ _ _ _ (np_ones_ok _ _ _ Hrh Hrw)).
  destruct (export_loop_ok cfg rc rgb 24
              {| patch_rows := r_height rc; patch_cols := r_width rc;
                 patch_colour := (1, 1, 1)%float |}
              ((log
                ++ [EvPreview (reverse_channels (mosaic_image g rgb h w 24))])
               ++ [EvImWrite
                     (all_patch_file_str (colour._name (COLOR_SPACE cfg))
                        (OETF_TYPE cfg))
                     (_get_16bit_img cfg
                        (reverse_channels (mosaic_image g rgb h w 24)))])
              Hh Hw Hfrc eq_refl eq_refl Hlen (Nat.le_refl 24)) as [st Hst].
  rewrite (bind_ok _ _ _ _ _ Hst). unfold ret.
  rewrite <- !app_assoc. reflexivity.
Qed.

(** ** Quantisation *)

Lemma forallb_zrange (f : Z -> bool) n : forall start,
  forallb f (zrange start n) = true ->
  forall k, start <= k < start + Z.of_nat n -> f k = true.
Proof.
  induction n as [|n IH]; intros start H k Hk; [lia|].
  simpl in H. apply andb_prop in H as [H0 H1].
  destruct (Z.eq_dec k start) as [->|Hne]; [exact H0|].
  apply (IH (start + 1)); [exact H1|lia].
Qed.

Lemma forallb_zrange_Z (f : Z -> bool) start len k :
  forallb f (zrange start (Z.to_nat len)) = true ->
  start <= k < start + len -> f k = true.
Proof. intros H Hk. apply (forallb_zrange f _ _ H). lia. Qed.

(** [rint_mag] is rounding to nearest: the result is within half a unit of
    [m * 2^e], here for [e = - k] with the distance scaled by [2^k]. *)
Lemma rint_mag_nearest m k :
  0 < k ->
  2 * Z.abs (rint_mag m (- k) * 2 ^ k - Z.pos m) <= 2 ^ k.
Proof.
  intros Hk. unfold rint_mag.
  destruct (0 <=? - k) eqn:E; [apply Z.leb_le in E; lia|].
  rewrite Z.opp_involutive.
  rewrite Z.shiftr_div_pow2, Z.land_ones, Z.shiftl_1_l by lia.
  assert (Hpow : 2 ^ k = 2 * 2 ^ (k - 1)).
  { rewrite <- Z.pow_succ_r by lia. f_equal. lia. }
  assert (Hpos : 0 < 2 ^ (k - 1)) by (apply Z.pow_pos_nonneg; lia).
  pose proof (Z.div_mod (Z.pos m) (2 ^ k) ltac:(lia)) as Hdm.
  pose proof (Z.mod_pos_bound (Z.pos m) (2 ^ k) ltac:(lia)) as Hb.
  set (q := Z.pos m / 2 ^ k) in *. set (r := Z.pos m mod 2 ^ k) in *.
  set (p := 2 ^ (k - 1)) in *. set (P := 2 ^ k) in *.
  destruct (r <? p) eqn:E1; [apply Z.ltb_lt in E1; nia|].
  apply Z.ltb_ge in E1.
  destruct (p <? r) eqn:E2; [apply Z.ltb_lt in E2; nia|].
  apply Z.ltb_ge in E2.
  destruct (Z.even q); nia.
Qed.

(** On a tie [rint_mag] takes the even neighbour. *)
Lemma rint_mag_tie_even m k :
  0 < k ->
  Z.pos m mod 2 ^ k = 2 ^ (k - 1) ->
  Z.even (rint_mag m (- k)) = true.
Proof.
  intros Hk Htie. unfold rint_mag.
  destruct (0 <=? - k) eqn:E; [apply Z.leb_le in E; lia|].
  rewrite Z.opp_involutive.
  rewrite Z.shiftr_div_pow2, Z.land_ones, Z.shiftl_1_l by lia.
  rewrite Htie, Z.ltb_irrefl.
  destruct (Z.even (Z.pos m / 2 ^ k)) eqn:Ev; [exact Ev|].
  rewrite Z.even_add, Ev. reflexivity.
Qed.

(** *** Rounding, for every binary64 number *)

Lemma digits2_pos_iter_xO p k :
  digits2_pos (Pos.iter xO p k) = (digits2_pos p + k)%positive.
Proof.
  induction k using Pos.peano_ind.
  - simpl. lia.
  - rewrite Pos.iter_succ. simpl. rewrite IHk. lia.
Qed.

Lemma Zpos_iter_xO p k : Z.pos (Pos.iter xO p k) = Z.pos p * 2 ^ Z.pos k.
Proof.
  induction k using Pos.peano_ind.
  - simpl. lia.
  - rewrite Pos.iter_succ, Pos2Z.inj_xO, IHk, Pos2Z.inj_succ, Z.pow_succ_r by lia. lia.
Qed.

Lemma digits2_pos_lower p : 2 ^ (Z.pos (digits2_pos p) - 1) <= Z.pos p.
Proof.
  induction p as [p IH|p IH|]; simpl digits2_pos.
  - rewrite Pos2Z.inj_succ.
    replace (Z.succ (Z.pos (digits2_pos p)) - 1) with (Z.succ (Z.pos (digits2_pos p) - 1)) by lia.
    rewrite Z.pow_succ_r by lia. lia.
  - rewrite Pos2Z.inj_succ.
    replace (Z.succ (Z.pos (digits2_pos p)) - 1) with (Z.succ (Z.pos (digits2_pos p) - 1)) by lia.
    rewrite Z.pow_succ_r by lia. lia.
  - simpl. lia.
Qed.

Lemma digits2_pos_upper p : Z.pos p < 2 ^ Z.pos (digits2_pos p).
Proof.
  induction p as [p IH|p IH|]; simpl digits2_pos.
  - rewrite Pos2Z.inj_succ, Z.pow_succ_r by lia. lia.
  - rewrite Pos2Z.inj_succ, Z.pow_succ_r by lia. lia.
  - simpl. lia.
Qed.

Lemma digits2_pos_le_53 p : Z.pos p < 2 ^ 53 -> Z.pos (digits2_pos p) <= 53.
Proof.
  intros Hp. pose proof (digits2_pos_lower p) as Hl.
  destruct (Z_le_gt_dec (Z.pos (digits2_pos p)) 53) as [H|H]; [exact H|].
  assert (2 ^ 53 <= 2 ^ (Z.pos (digits2_pos p) - 1)) by (apply Z.pow_le_mono_r; lia).
  lia.
Qed.

Lemma py_int_float_of_pos s p :
  Z.pos p < 2 ^ 53 ->
  py_int (float_of_pos s p) = Some (if s then - Z.pos p else Z.pos p).
Proof.
  intros Hp. pose proof (digits2_pos_le_53 p Hp) as Hd.
  unfold float_of_pos, py_int.
  destruct (53 - Z.pos (digits2_pos p)) as [|k|k] eqn:E; try lia.
  - rewrite Prim2SF_SF2Prim.
    + unfold trunc_mag. simpl. reflexivity.
    + unfold valid_binary, bounded, canonical_mantissa, fexp, emin, prec, emax.
      replace (Z.pos (digits2_pos p)) with 53 by lia. reflexivity.
  - rewrite Prim2SF_SF2Prim.
    + unfold trunc_mag.
      destruct (0 <=? Z.neg k) eqn:E0; [apply Z.leb_le in E0; lia|].
      rewrite Zpos_iter_xO. change (- Z.neg k) with (Z.pos k).
      rewrite Z.shiftr_div_pow2 by lia.
      rewrite Z.div_mul by (apply Z.pow_nonzero; lia). reflexivity.
    + unfold valid_binary, bounded, canonical_mantissa, fexp, emin, prec, emax.
      rewrite digits2_pos_iter_xO, Pos2Z.inj_add.
      apply andb_true_intro. split.
      * apply Z.eqb_eq. lia.
      * apply Z.leb_le. lia.
Qed.

Lemma Prim2SF_mantissa_bound x s m e :
  Prim2SF x = S754_finite s m e -> Z.pos m < 2 ^ 53.
Proof.
  intros H. pose proof (Prim2SF_valid x) as Hv. rewrite H in Hv.
  unfold valid_binary, bounded, canonical_mantissa, fexp, emin, prec, emax in Hv.
  apply andb_prop in Hv as [Hc _]. apply Z.eqb_eq in Hc.
  pose proof (digits2_pos_upper m) as Hu.
  assert (Z.pos (digits2_pos m) <= 53) by lia.
  assert (2 ^ Z.pos (digits2_pos m) <= 2 ^ 53) by (apply Z.pow_le_mono_r; lia).
  lia.
Qed.

Lemma rint_mag_bounds m e :
  e < 0 -> Z.pos m < 2 ^ 53 -> 0 <= rint_mag m e < 2 ^ 53.
Proof.
  intros He Hm. unfold rint_mag.
  destruct (0 <=? e) eqn:E; [apply Z.leb_le in E; lia|].
  rewrite Z.shiftr_div_pow2 by lia.
  assert (Hq : 0 <= Z.pos m / 2 ^ (- e) <= 2 ^ 52 - 1).
  { split; [apply Z.div_pos; [lia|apply Z.pow_pos_nonneg; lia]|].
    assert (Z.pos m / 2 ^ (- e) <= Z.pos m / 2 ^ 1).
    { apply Z.div_le_compat_l; [lia|]. split; [lia|].
      apply Z.pow_le_mono_r; lia. }
    assert (Z.pos m / 2 ^ 1 <= (2 ^ 53 - 1) / 2 ^ 1) by (apply Z.div_le_mono; lia).
    change ((2 ^ 53 - 1) / 2 ^ 1) with (2 ^ 52 - 1) in *. lia. }
  change (2 ^ 53) with 9007199254740992. change (2 ^ 52) with 4503599627370496 in Hq.
  repeat match goal with |- context [if ?b then _ else _] => destruct b end; lia.
Qed.

Lemma py_int_np_round x s m e :
  Prim2SF x = S754_finite s m e ->
  py_int (np_round x) = Some (if s then - rint_mag m e else rint_mag m e).
Proof.
  intros H. pose proof (Prim2SF_mantissa_bound x s m e H) as Hm.
  unfold np_round. rewrite H.
  destruct (0 <=? e) eqn:E.
  - unfold py_int. rewrite H. unfold trunc_mag, rint_mag. rewrite E. reflexivity.
  - apply Z.leb_gt in E.
    pose proof (rint_mag_bounds m e E Hm) as Hb.
    destruct (rint_mag m e) as [|p|p] eqn:Er; try lia.
    + destruct s; reflexivity.
    + apply py_int_float_of_pos. lia.
Qed.

(** The quantiser works value by value and keeps the shape of the image. *)
Lemma pixel_get_16bit_img cfg img r c :
  pixel (_get_16bit_img cfg img) r c = map3 (quantize cfg) <$> pixel img r c.
Proof. apply pixel_map. Qed.

(** Whatever the input, the result is a 16-bit unsigned integer. *)
Lemma np_uint16_range x : 0 <= np_uint16 x <= 65535.
Proof.
  unfold np_uint16. destruct (py_int x) as [n|]; [|lia].
  destruct ((- 2 ^ 31 <=? n) && (n <? 2 ^ 31)); [|lia].
  change (Z.land n 65535) with (Z.land n (Z.ones 16)).
  rewrite Z.land_ones by lia.
  assert (H : 0 < 2 ^ 16) by lia.
  pose proof (Z.mod_pos_bound n (2 ^ 16) H). lia.
Qed.

(** Inside the 32-bit range the conversion keeps the integer modulo
    [2^16]. *)
Lemma np_uint16_mod x n :
  py_int x = Some n -> - 2 ^ 31 <= n < 2 ^ 31 -> np_uint16 x = n mod 2 ^ 16.
Proof.
  intros H Hn. unfold np_uint16. rewrite H.
  destruct (- 2 ^ 31 <=? n) eqn:E1; [|apply Z.leb_gt in E1; lia].
  destruct (n <? 2 ^ 31) eqn:E2; [|apply Z.ltb_ge in E2; lia].
  cbn [andb].
  change (Z.land n 65535) with (Z.land n (Z.ones 16)).
  now rewrite Z.land_ones by lia.
Qed.

(** Outside the 32-bit range the conversion gives 0. *)
Lemma np_uint16_out x n :
  py_int x = Some n -> n <= - 2 ^ 31 \/ 2 ^ 31 <= n -> np_uint16 x = 0.
Proof.
  intros H Hn. unfold np_uint16. rewrite H.
  destruct (- 2 ^ 31 <=? n) eqn:E1; [|reflexivity].
  destruct (n <? 2 ^ 31) eqn:E2; [|reflexivity].
  apply Z.leb_le in E1. apply Z.ltb_lt in E2. cbn [andb].
  assert (n = - 2 ^ 31) as -> by lia. reflexivity.
Qed.

(** A value that is not a finite number is converted to 0. *)
Lemma np_uint16_not_finite x : py_int x = None -> np_uint16 x = 0.
Proof. intros H. unfold np_uint16. now rewrite H. Qed.

Lemma rint_mag_nonneg m e : 0 <= rint_mag m e.
Proof.
  unfold rint_mag. destruct (0 <=? e).
  - apply Z.shiftl_nonneg. lia.
  - assert (0 <= Z.shiftr (Z.pos m) (- e)) by (apply Z.shiftr_nonneg; lia).
    repeat match goal with
           | |- context [if ?b then _ else _] => destruct b
           end; lia.
Qed.

(** Rounding and conversion together, for every finite number
    [(-1)^s * m * 2^e] whose rounded magnitude is below [2^31]. *)
Lemma np_uint16_np_round x s m e :
  Prim2SF x = S754_finite s m e ->
  rint_mag m e < 2 ^ 31 ->
  np_uint16 (np_round x)
  = (if s then - rint_mag m e else rint_mag m e) mod 2 ^ 16.
Proof.
  intros H Hb. pose proof (rint_mag_nonneg m e).
  apply np_uint16_mod; [now apply py_int_np_round|].
  destruct s; lia.
Qed.

(** From [2^31] on, the conversion of the rounded number gives 0. *)
Lemma np_uint16_np_round_out x s m e :
  Prim2SF x = S754_finite s m e ->
  2 ^ 31 <= rint_mag m e ->
  np_uint16 (np_round x) = 0.
Proof.
  intros H Hb.
  apply (np_uint16_out _ (if s then - rint_mag m e else rint_mag m e));
    [now apply py_int_np_round|].
  destruct s; lia.
Qed.

(** Every 16-bit code is recovered from the value it stands for. *)
Lemma quantize_grid lib k :
  0 <= k <= 65535 ->
  quantize (reference_config lib) (float_of_int k / float_of_int 65535)%float = k.
Proof.
  intros Hk.
  apply Z.eqb_eq.
  apply (forallb_zrange_Z
           (fun k => quantize (reference_config lib)
                       (float_of_int k / float_of_int 65535)%float =? k)
           0 65536); [|lia].
  vm_compute. reflexivity.
Qed.

(** Whole numbers outside [0, 1] come out reduced modulo [2^16], as long
    as the product stays within 32 bits. *)
Lemma quantize_wrap_int lib k :
  -32768 <= k <= 32768 ->
  quantize (reference_config lib) (float_of_int k) = (k * 65535) mod 2 ^ 16.
Proof.
  intros Hk.
  apply Z.eqb_eq.
  apply (forallb_zrange_Z
           (fun k => quantize (reference_config lib) (float_of_int k)
                     =? (k * 65535) mod 2 ^ 16)
           (-32768) 65537); [|lia].
  vm_compute. reflexivity.
Qed.

(** A value that is not a finite number gives 0. *)
Lemma np_uint16_np_round_not_finite x :
  py_int x = None -> np_uint16 (np_round x) = 0.
Proof.
  intros H. apply np_uint16_not_finite.
  unfold py_int in H. unfold np_round, py_int.
  destruct (Prim2SF x) eqn:E; try discriminate H; now rewrite E.
Qed.

(** ** The geometry of the reference constants *)

Lemma reference_layout lib :
  snd (mosaic_layout (reference_config lib) []) = inr reference_geometry.
Proof. vm_compute. reflexivity. Qed.

Lemma reference_measure lib :
  snd (measure_rect (reference_config lib) []) = inr reference_measure_rect.
Proof. vm_compute. reflexivity. Qed.

Ltac bool_to_prop :=
  repeat match goal with
         | H : _ && _ = true |- _ => apply andb_prop in H as [? ?]
         | H : (_ <=? _) = true |- _ => apply Z.leb_le in H
         | H : (_ <? _) = true |- _ => apply Z.ltb_lt in H
         | |- _ && _ = true => apply andb_true_intro; split
         | |- (_ <=? _) = true => apply Z.leb_le
         | |- (_ <? _) = true => apply Z.ltb_lt
         end.

Lemma mosaic_rect_reference idx :
  mosaic_rect reference_geometry idx
  = {| r_left := 226 + (240 + 10) * (idx mod 6);
       r_top := 51 + (240 + 10) * (idx / 6);
       r_width := 240; r_height := 240 |}.
Proof. reflexivity. Qed.

Lemma reference_fits idx :
  0 <= idx < 24 -> fits (mosaic_rect reference_geometry idx) 1080 1920 = true.
Proof.
  intros Hi. rewrite mosaic_rect_reference. unfold fits. simpl.
  pose proof (Z.mod_pos_bound idx 6 ltac:(lia)).
  pose proof (Z.div_mod idx 6 ltac:(lia)).
  bool_to_prop; lia.
Qed.

Lemma reference_measure_fits : fits reference_measure_rect 1080 1920 = true.
Proof. reflexivity. Qed.

(** Two mosaic rectangles that share a pixel are the same rectangle: the
    padding is not negative, so neighbours do not overlap. *)
Lemma mosaic_rects_disjoint g i j r c :
  0 <= g_space g ->
  0 <= i -> 0 <= j ->
  in_rect (mosaic_rect g i) r c = true ->
  in_rect (mosaic_rect g j) r c = true ->
  i = j.
Proof.
  intros Hsp Hi Hj Hin Hjn. unfold in_rect, in_range, mosaic_rect in *. simpl in *.
  bool_to_prop. unfold h_num in *.
  pose proof (Z.div_mod i 6 ltac:(lia)) as Hdi.
  pose proof (Z.div_mod j 6 ltac:(lia)) as Hdj.
  pose proof (Z.mod_pos_bound i 6 ltac:(lia)) as Hbi.
  pose proof (Z.mod_pos_bound j 6 ltac:(lia)) as Hbj.
  set (qi := i / 6) in *. set (ri := i mod 6) in *.
  set (qj := j / 6) in *. set (rj := j mod 6) in *.
  assert (ri = rj) by nia.
  assert (qi = qj) by nia.
  lia.
Qed.

Lemma top_patch_in g n r c idx :
  top_patch g n r c = Some idx ->
  0 <= idx < Z.of_nat n /\ in_rect (mosaic_rect g idx) r c = true.
Proof.
  induction n as [|n IH]; simpl; [discriminate|].
  destruct (in_rect (mosaic_rect g (Z.of_nat n)) r c) eqn:E.
  - intros [= <-]. split; [lia|exact E].
  - intros H. destruct (IH H). split; [lia|assumption].
Qed.

Lemma top_patch_none g n r c :
  top_patch g n r c = None ->
  forall idx, 0 <= idx < Z.of_nat n -> in_rect (mosaic_rect g idx) r c = false.
Proof.
  induction n as [|n IH]; simpl; intros H idx Hi; [lia|].
  destruct (in_rect (mosaic_rect g (Z.of_nat n)) r c) eqn:E; [discriminate|].
  destruct (Z.eq_dec idx (Z.of_nat n)) as [->|Hne]; [exact E|].
  apply IH; [exact H|lia].
Qed.

(** With no overlap, the patch over a pixel is the one whose rectangle holds
    the pixel. *)
Lemma top_patch_unique g n r c idx :
  0 <= g_space g ->
  0 <= idx < Z.of_nat n ->
  in_rect (mosaic_rect g idx) r c = true ->
  top_patch g n r c = Some idx.
Proof.
  intros Hsp Hi Hin.
  destruct (top_patch g n r c) as [j|] eqn:E.
  - apply top_patch_in in E as [Hj Hjn]. f_equal.
    apply (mosaic_rects_disjoint g j idx r c); auto; lia.
  - rewrite (top_patch_none g n r c E idx Hi) in Hin. discriminate.
Qed.

(** Every pixel of the mosaic: the colour of the patch painted last over
    it, zero where no patch was painted. *)
Lemma pixel_mosaic_image g rgb h w n r c :
  pixel (mosaic_image g rgb h w n) r c
  = if in_range 0 h r && in_range 0 w c
    then Some match top_patch g n r c with
              | Some idx => colour_of rgb idx
              | None => (0, 0, 0)%float
              end
    else None.
Proof.
  induction n as [|n IH].
  - apply pixel_blank.
  - rewrite mosaic_image_S, pixel_paint, IH. simpl.
    destruct (in_range 0 h r && in_range 0 w c); [|reflexivity]. simpl.
    destruct (in_rect (mosaic_rect g (Z.of_nat n)) r c); reflexivity.
Qed.

(** ** Runs with the reference constants *)

Lemma reference_run lib rgb log :
  (24 <= length rgb)%nat ->
  let cfg := reference_config lib in
  make_color_checker_image cfg rgb log
  = (log
     ++ [EvPreview (reverse_channels (mosaic_image reference_geometry rgb 1080 1920 24));
         EvImWrite
           (all_patch_file_str (colour._name (COLOR_SPACE cfg)) (OETF_TYPE cfg))
           (_get_16bit_img cfg
              (reverse_channels (mosaic_image reference_geometry rgb 1080 1920 24)))]
     ++ measure_events cfg reference_measure_rect rgb 0 24,
     inr tt).
Proof.
  intros Hlen cfg.
  apply (make_color_checker_image_ok cfg rgb reference_geometry
           reference_measure_rect log).
  - apply reference_layout.
  - apply reference_measure.
  - reflexivity.
  - discriminate.
  - intros idx Hi. now apply reference_fits.
  - apply reference_measure_fits.
  - exact Hlen.
Qed.

Lemma writes_app l1 l2 : writes (l1 ++ l2) = writes l1 ++ writes l2.
Proof. unfold writes. apply omap_app. Qed.

Lemma writes_nil : writes [] = [].
Proof. reflexivity. Qed.

Lemma writes_cons ev l :
  writes (ev :: l)
  = match ev with
    | EvImWrite f img => (f, img) :: writes l
    | _ => writes l
    end.
Proof. destruct ev; reflexivity. Qed.

Lemma writes_measure_events cfg rc rgb start n :
  writes (measure_events cfg rc rgb start n)
  = map (fun idx =>
           (measure_file_str (colour._name (COLOR_SPACE cfg)) (OETF_TYPE cfg)
              (idx + 1)
              (default ""%string (COLOR_CHECKER_EACH_NAME !! Z.to_nat idx)),
            _get_16bit_img cfg
              (reverse_channels
                 (paint (blank (IMG_HEIGHT cfg) (IMG_WIDTH cfg)) rc
                    (colour_of rgb idx)))))
      (zrange start n).
Proof.
  unfold measure_events. induction (zrange start n) as [|k l IH]; [reflexivity|].
  simpl. f_equal. exact IH.
Qed.

(** The stages before the compositor, when the chart is known and a
    transfer function is selected. *)
Lemma main_func_ok lib cfg name data wp f log :
  colour.COLOURCHECKERS_get lib (COLOR_CHECKER_NAME cfg) = Some (name, data, wp) ->
  OETF_FUNC lib cfg = Some f ->
  main_func lib cfg log
  = make_color_checker_image cfg
      (f (array_mul_int (linear_rgb lib cfg data wp) (TARGET_BRIGHTNESS cfg)))
      (log ++ pipeline_events lib cfg data wp
           ++ [EvColourCall (OETF_FUNC_name cfg)
                 (array_mul_int (linear_rgb lib cfg data wp) (TARGET_BRIGHTNESS cfg))]).
Proof.
  intros Hchart Hf.
  unfold main_func, get_colorchecker_large_xyz_and_whitepoint,
    get_linear_rgb_from_large_xyz, get_rgb_with_prime.
  rewrite Hchart, Hf. unfold bind, emit, ret. simpl.
  rewrite <- !app_assoc. reflexivity.
Qed.

(** The same stages when no transfer function is selected: the call of
    [None] raises after the chart was read and converted. *)
Lemma main_func_no_oetf lib cfg name data wp log :
  colour.COLOURCHECKERS_get lib (COLOR_CHECKER_NAME cfg) = Some (name, data, wp) ->
  OETF_FUNC lib cfg = None ->
  main_func lib cfg log
  = (log ++ pipeline_events lib cfg data wp,
     inl (TypeError "'NoneType' object is not callable")).
Proof.
  intros Hchart Hf.
  unfold main_func, get_colorchecker_large_xyz_and_whitepoint,
    get_linear_rgb_from_large_xyz, get_rgb_with_prime.
  rewrite Hchart, Hf. unfold bind, emit, ret, raise. simpl.
  rewrite <- !app_assoc. reflexivity.
Qed.

Lemma main_func_no_chart lib cfg log :
  colour.COLOURCHECKERS_get lib (COLOR_CHECKER_NAME cfg) = None ->
  main_func lib cfg log
  = (log ++ [EvChartLookup (COLOR_CHECKER_NAME cfg)],
     inl (TypeError "cannot unpack non-iterable NoneType object")).
Proof.
  intros Hchart.
  unfold main_func, get_colorchecker_large_xyz_and_whitepoint.
  rewrite Hchart. reflexivity.
Qed.

Lemma OETF_FUNC_unknown lib cfg :
  OETF_TYPE cfg <> "HLG"%string -> OETF_TYPE cfg <> "ST2084"%string ->
  OETF_FUNC lib cfg = None.
Proof.
  intros H1 H2. unfold OETF_FUNC.
  destruct (String.eqb_spec (OETF_TYPE cfg) "HLG"); [contradiction|].
  destruct (String.eqb_spec (OETF_TYPE cfg) "ST2084"); [contradiction|].
  reflexivity.
Qed.

(** In the mosaic of the reference constants every pixel of the rectangle
    of [idx] has the colour of [idx]. *)
Lemma reference_mosaic_pixel rgb idx r c :
  0 <= idx < 24 ->
  in_rect (mosaic_rect reference_geometry idx) r c = true ->
  pixel (mosaic_image reference_geometry rgb 1080 1920 24) r c
  = Some (colour_of rgb idx).
Proof.
  intros Hidx Hin. rewrite pixel_mosaic_image.
  rewrite (top_patch_unique reference_geometry 24 r c idx)
    by (try exact Hin; simpl; lia).
  pose proof (reference_fits idx Hidx) as Hfit.
  unfold fits in Hfit. unfold in_rect, in_range in Hin |- *.
  bool_to_prop.
  replace ((0 <=? r) && (r <? 1080) && ((0 <=? c) && (c <? 1920))) with true;
    [reflexivity|].
  symmetry. bool_to_prop; lia.
Qed.

Lemma mosaic_rect_reference_inj i j :
  0 <= i < 24 -> 0 <= j < 24 ->
  mosaic_rect reference_geometry i = mosaic_rect reference_geometry j -> i = j.
Proof.
  intros Hi Hj H. rewrite !mosaic_rect_reference in H.
  injection H as Hl Ht.
  pose proof (Z.mod_pos_bound i 6 ltac:(lia)).
  pose proof (Z.div_mod i 6 ltac:(lia)).
  pose proof (Z.mod_pos_bound j 6 ltac:(lia)).
  pose proof (Z.div_mod j 6 ltac:(lia)).
  lia.
Qed.

Lemma mosaic_rects_length g : length (mosaic_rects g) = 24%nat.
Proof. reflexivity. Qed.

(** * The claims *)

(** C5: with the constants of the file the quantiser takes an encoded value
    of exactly 0.0 to 0, exactly 1.0 to 65535 and exactly 0.5 to 32768:
    0.5 * 65535 is 32767.5, which rounds (half to even) to 32768. *)
Theorem C5_quantize_zero_one_half (lib : colour.lib) :
  let cfg := reference_config lib in
  quantize cfg 0 = 0
  /\ quantize cfg 1 = 65535
  /\ quantize cfg 0.5 = 32768
  /\ (0.5 * float_of_int (IMG_MAX_LEVEL cfg))%float = 32767.5%float
  /\ np_round 32767.5 = 32768%float
  /\ _get_16bit_img cfg [[(0, 1, 0.5)%float]] = [[(0, 65535, 32768)]].
Proof. intros cfg. repeat split; vm_compute; reflexivity. Qed.

(** C4: the quantiser works on every value of the image by itself: the
    value is multiplied by 65535, the product is rounded to the nearest
    integer (ties to even) and converted to a 16-bit unsigned integer.  For
    every value whose product is the finite number (-1)^s * m * 2^e and
    whose rounded product is below 2^31 in magnitude, the result is the
    rounded product modulo 2^16; it is the rounded product itself when that
    lies in 0..65535, and every code k in 0..65535 is recovered from
    k / 65535.  Nothing is clamped: the result is always in 0..65535 only
    because of the width of the conversion, so a whole number k outside
    [0, 1], from -32768 to 32768, gives (k * 65535) mod 2^16 (-1.0 gives 1,
    not 0; 2.0 gives 65534, not 65535), -0.5 gives 32768 and 1.5 gives
    32766.  Beyond that the conversion overflows: a rounded product of
    magnitude 2^31 or more, an infinity and a NaN give 0 (1000000.0,
    -1000000.0, 32768.6 and 1e15 all give 0, neither 65535 nor the residue
    modulo 2^16). *)
Theorem C4_quantize_scales_rounds_wraps (lib : colour.lib) :
  let cfg := reference_config lib in
  (forall img r c,
     pixel (_get_16bit_img cfg img) r c
     = map3 (fun x => np_uint16 (np_round (x * 65535)%float)) <$> pixel img r c)
  /\ (forall x s m e,
        Prim2SF (x * 65535)%float = S754_finite s m e ->
        rint_mag m e < 2 ^ 31 ->
        quantize cfg x
        = (if s then - rint_mag m e else rint_mag m e) mod 2 ^ 16)
  /\ (forall x s m e,
        Prim2SF (x * 65535)%float = S754_finite s m e ->
        2 ^ 31 <= rint_mag m e ->
        quantize cfg x = 0)
  /\ (forall x, py_int (x * 65535)%float = None -> quantize cfg x = 0)
  /\ (forall x m e,
        Prim2SF (x * 65535)%float = S754_finite false m e ->
        rint_mag m e <= 65535 ->
        quantize cfg x = rint_mag m e)
  /\ (forall m k, 0 < k ->
        2 * Z.abs (rint_mag m (- k) * 2 ^ k - Z.pos m) <= 2 ^ k)
  /\ (forall m k, 0 < k ->
        Z.pos m mod 2 ^ k = 2 ^ (k - 1) -> Z.even (rint_mag m (- k)) = true)
  /\ (forall k, 0 <= k <= 65535 ->
        quantize cfg (float_of_int k / 65535)%float = k)
  /\ (forall x, 0 <= quantize cfg x <= 65535)
  /\ (forall k, -32768 <= k <= 32768 ->
        quantize cfg (float_of_int k) = (k * 65535) mod 2 ^ 16)
  /\ quantize cfg (-1) = 1
  /\ quantize cfg 2 = 65534
  /\ quantize cfg (-0.5) = 32768
  /\ quantize cfg 1.5 = 32766
  /\ quantize cfg 32768 = 32768
  /\ quantize cfg 32768.6 = 0
  /\ quantize cfg 1000000 = 0
  /\ quantize cfg (-1000000) = 0
  /\ quantize cfg 1e15 = 0
  /\ quantize cfg infinity = 0
  /\ quantize cfg nan = 0.
Proof.
  intros cfg.
  split; [|split; [|split; [|split; [|split; [|split; [|split; [|split;
    [|split; [|split]]]]]]]]].
  - intros img r c. apply pixel_get_16bit_img.
  - intros x s m e H Hb. apply (np_uint16_np_round _ s m e H Hb).
  - intros x s m e H Hb. apply (np_uint16_np_round_out _ s m e H Hb).
  - intros x H. apply np_uint16_np_round_not_finite. exact H.
  - intros x m e H Hle.
    unfold quantize. change (float_of_int (IMG_MAX_LEVEL cfg)) with 65535%float.
    assert (Hb : rint_mag m e < 2 ^ 31) by lia.
    rewrite (np_uint16_np_round _ false m e H Hb).
    apply Z.mod_small. split; [apply rint_mag_nonneg|lia].
  - apply rint_mag_nearest.
  - apply rint_mag_tie_even.
  - apply quantize_grid.
  - intros x. apply np_uint16_range.
  - apply quantize_wrap_int.
  - repeat split; vm_compute; reflexivity.
Qed.

(** The statement above at the code 12345, at the values 0.3 and -0.3, and
    at 40000.5, whose product with 65535 is beyond 32 bits. *)
Lemma C4_quantize_scales_rounds_wraps_witness :
  quantize (reference_config identity_lib) (float_of_int 12345 / 65535)%float
  = 12345
  /\ quantize (reference_config identity_lib) 0.3 = 19660
  /\ quantize (reference_config identity_lib) (-0.3) = 65536 - 19660
  /\ quantize (reference_config identity_lib) 40000.5 = 0.
Proof.
  destruct (C4_quantize_scales_rounds_wraps identity_lib)
    as (_ & Hmod & Hout & _ & Hin & _ & _ & Hgrid & _).
  split; [apply Hgrid; lia|]. split; [|split].
  - rewrite (Hin 0.3%float 5404237089472512%positive (-38)).
    + vm_compute. reflexivity.
    + vm_compute. reflexivity.
    + vm_compute. discriminate.
  - rewrite (Hmod (-0.3)%float true 5404237089472512%positive (-38)).
    + vm_compute. reflexivity.
    + vm_compute. reflexivity.
    + vm_compute. reflexivity.
  - apply (Hout 40000.5%float false 5497542971228160%positive (-21)).
    + vm_compute. reflexivity.
    + vm_compute. discriminate.
Defined.

(** C6: the encoder multiplies every component of every linear RGB triple
    by the target peak luminance and hands the scaled array to the selected
    transfer function, whose result it returns as it is: the output is
    OETF(rgb * TARGET_BRIGHTNESS).  The selected function is the reverse HLG
    EOTF for "HLG" and the ST 2084 OETF for "ST2084".  Nothing is clamped:
    with the constants of the file and a transfer function that returns its
    argument, (-0.5, 0.5, 7) comes out as (-50, 50, 700). *)
Theorem C6_scale_then_oetf (lib : colour.lib) (cfg : config)
  (rgb : list triple) (f : list triple -> list triple) (log : list event) :
  let k := float_of_int (TARGET_BRIGHTNESS cfg) in
  let scaled := map (fun '(r, g, b) => (r * k, g * k, b * k)%float) rgb in
  get_rgb_with_prime cfg rgb (Some f) log
  = (log ++ [EvColourCall (OETF_FUNC_name cfg) scaled], inr (f scaled))
  /\ snd (get_rgb_with_prime (with_oetf_type cfg "HLG") rgb
            (OETF_FUNC lib (with_oetf_type cfg "HLG")) log)
     = inr (colour.eotf_reverse_BT2100_HLG lib scaled)
  /\ snd (get_rgb_with_prime (with_oetf_type cfg "ST2084") rgb
            (OETF_FUNC lib (with_oetf_type cfg "ST2084")) log)
     = inr (colour.oetf_ST2084 lib scaled)
  /\ snd (get_rgb_with_prime (reference_config lib) [(-0.5, 0.5, 7)%float]
            (Some (fun a => a)) log)
     = inr [(-50, 50, 700)%float].
Proof.
  intros k scaled.
  assert (Hs : array_mul_int rgb (TARGET_BRIGHTNESS cfg) = scaled).
  { unfold array_mul_int, scaled, map3. apply map_ext. now intros [[r g] b]. }
  split; [|split; [|split]].
  - unfold get_rgb_with_prime. rewrite Hs. reflexivity.
  - unfold get_rgb_with_prime, OETF_FUNC. simpl. now rewrite Hs.
  - unfold get_rgb_with_prime, OETF_FUNC. simpl. now rewrite Hs.
  - vm_compute. reflexivity.
Qed.

(** C7: the converter returns the array that [XYZ_to_RGB] gives and changes
    no value of it, and [main_func] hands that array to the encoder as it
    is.  So a component below 0 or above 1 reaches the encoder unchanged:
    with a package that returns its argument, the last chart entry
    (1.4375, 0.5, -0.25) is the last linear RGB triple. *)
Theorem C7_linear_rgb_not_clamped (lib : colour.lib) (cfg : config)
  (large_xyz : list triple) (whitepoint : list float)
  (color_space : colour.RGB_Colourspace) (log : list event) :
  get_linear_rgb_from_large_xyz lib cfg large_xyz whitepoint color_space log
  = (log ++ [EvColourCall "XYZ_to_RGB" large_xyz],
     inr (colour.XYZ_to_RGB lib large_xyz whitepoint
            (colour.whitepoint color_space)
            (colour.XYZ_to_RGB_matrix color_space)
            (CHROMATIC_ADAPTATION_TRANSFORM cfg)))
  /\ main_func lib cfg log
     = match colour.COLOURCHECKERS_get lib (COLOR_CHECKER_NAME cfg) with
       | Some (_, data, wp) =>
           bind (get_rgb_with_prime cfg (linear_rgb lib cfg data wp)
                   (OETF_FUNC lib cfg))
             (make_color_checker_image cfg)
             (log ++ pipeline_events lib cfg data wp)
       | None =>
           (log ++ [EvChartLookup (COLOR_CHECKER_NAME cfg)],
            inl (TypeError "cannot unpack non-iterable NoneType object"))
       end
  /\ match colour.COLOURCHECKERS_get identity_lib "ColorChecker 2005" with
     | Some (_, data, wp) =>
         linear_rgb identity_lib (reference_config identity_lib) data wp !! 23%nat
         = Some (1.4375, 0.5, -0.25)%float
     | None => False
     end.
Proof.
  split; [reflexivity|split].
  - unfold main_func, get_colorchecker_large_xyz_and_whitepoint.
    destruct (colour.COLOURCHECKERS_get lib (COLOR_CHECKER_NAME cfg))
      as [[[name data] wp]|]; [|reflexivity].
    unfold get_linear_rgb_from_large_xyz, bind, emit, ret. simpl.
    rewrite <- !app_assoc. reflexivity.
  - vm_compute. reflexivity.
Qed.

(** C10: with the constants of the file and at least 24 colours, the first
    loop places the patch of ordinal [idx] (from 0) in row-major order: in
    column [idx mod 6] and row [idx / 6], with its origin at
    (patch_st_h + (patch_width + patch_space) * column,
     patch_st_v + (patch_height + patch_space) * row).
    The rectangle lies inside the image and every pixel of it has the colour
    [rgb[idx]] in the mosaic that is shown and written.  Patch 0 is the
    top-left one; in a row the origins move right as the index grows, and a
    later row lies lower. *)
Theorem C10_mosaic_row_major (lib : colour.lib) (rgb : list triple) :
  (24 <= length rgb)%nat ->
  let cfg := reference_config lib in
  exists g mosaic rest,
    snd (mosaic_layout cfg []) = inr g
    /\ run (make_color_checker_image cfg rgb)
       = (EvPreview (reverse_channels mosaic)
          :: EvImWrite
               (all_patch_file_str (colour._name (COLOR_SPACE cfg)) (OETF_TYPE cfg))
               (_get_16bit_img cfg (reverse_channels mosaic))
          :: rest,
          inr tt)
    /\ forall idx, 0 <= idx < 24 ->
         let column := idx mod 6 in
         let row := idx / 6 in
         let rc := {| r_left := g_st_h g + (g_width g + g_space g) * column;
                      r_top := g_st_v g + (g_height g + g_space g) * row;
                      r_width := g_width g;
                      r_height := g_height g |} in
         mosaic_rect g idx = rc
         /\ fits rc (IMG_HEIGHT cfg) (IMG_WIDTH cfg) = true
         /\ (forall r c, in_rect rc r c = true ->
               pixel mosaic r c = Some (colour_of rgb idx))
         /\ r_left (mosaic_rect g 0) = g_st_h g
         /\ r_top (mosaic_rect g 0) = g_st_v g
         /\ r_left (mosaic_rect g 0) <= r_left rc
         /\ r_top (mosaic_rect g 0) <= r_top rc
         /\ (forall idx', idx < idx' < 24 ->
               (idx' / 6 = row ->
                  r_left rc < r_left (mosaic_rect g idx')
                  /\ r_top rc = r_top (mosaic_rect g idx'))
               /\ (row < idx' / 6 -> r_top rc < r_top (mosaic_rect g idx'))).
Proof.
  intros Hlen cfg.
  exists reference_geometry, (mosaic_image reference_geometry rgb 1080 1920 24),
    (measure_events cfg reference_measure_rect rgb 0 24).
  split; [apply reference_layout|]. split.
  - unfold run, cfg. now rewrite (reference_run lib rgb [] Hlen).
  - intros idx Hidx column row rc.
    assert (Hrc : mosaic_rect reference_geometry idx = rc) by reflexivity.
    pose proof (reference_fits idx Hidx) as Hfit. rewrite Hrc in Hfit.
    split; [exact Hrc|]. split; [exact Hfit|]. split.
    + intros r c Hin. apply reference_mosaic_pixel; [exact Hidx|].
      now rewrite Hrc.
    + subst rc column row. simpl.
      pose proof (Z.mod_pos_bound idx 6 ltac:(lia)).
      pose proof (Z.div_mod idx 6 ltac:(lia)).
      unfold mosaic_rect, h_num. simpl.
      change (0 mod 6) with 0. change (0 / 6) with 0.
      do 4 (split; [lia|]).
      intros idx' Hidx'.
      pose proof (Z.mod_pos_bound idx' 6 ltac:(lia)).
      pose proof (Z.div_mod idx' 6 ltac:(lia)).
      repeat split; intros; lia.
Qed.

(** The statement above at 24 colours that all differ: the first pixel of
    patch 0 and of patch 23. *)
Lemma C10_mosaic_row_major_witness :
  exists mosaic rest,
    run (make_color_checker_image (reference_config identity_lib) demo_rgb)
    = (EvPreview (reverse_channels mosaic)
       :: EvImWrite "./output/ColorChecker_All_ITU-R BT.2020_HLG_.tiff"
            (_get_16bit_img (reference_config identity_lib)
               (reverse_channels mosaic))
       :: rest,
       inr tt)
    /\ pixel mosaic 51 226 = Some (0, 0.5, -0.25)%float
    /\ pixel mosaic (51 + 250 * 3) (226 + 250 * 5) = Some (1.4375, 0.5, -0.25)%float.
Proof.
  destruct (C10_mosaic_row_major identity_lib demo_rgb)
    as (g & mosaic & rest & Hg & Hrun & Hpix).
  - vm_compute. lia.
  - exists mosaic, rest. split; [exact Hrun|].
    assert (g = reference_geometry) as ->
      by (rewrite reference_layout in Hg; now injection Hg).
    split.
    + destruct (Hpix 0 ltac:(lia)) as (_ & _ & H0 & _).
      apply (H0 51 226). reflexivity.
    + destruct (Hpix 23 ltac:(lia)) as (_ & _ & H23 & _).
      apply (H23 (51 + 250 * 3) (226 + 250 * 5)). reflexivity.
Defined.

(** C8: with the constants of the file and at least 24 colours, the 24
    single-patch images all use one rectangle: a square of side
    int(0.15 * width) = 288 whose origin is
    (width // 2 - side // 2, height // 2 - side // 2) = (816, 396).
    The run writes 25 images, the mosaic first; the image written for the
    patch [idx] has, at every pixel of the canvas, the quantised colour
    [rgb[idx]] (channels reversed for the writer) inside the rectangle and
    zero outside it. *)
Theorem C8_single_patch_images (lib : colour.lib) (rgb : list triple) :
  (24 <= length rgb)%nat ->
  let cfg := reference_config lib in
  exists rc log,
    snd (measure_rect cfg []) = inr rc
    /\ py_int (float_of_int (IMG_WIDTH cfg) * 0.15)%float = Some (r_width rc)
    /\ r_height rc = r_width rc
    /\ r_left rc = IMG_WIDTH cfg / 2 - r_width rc / 2
    /\ r_top rc = IMG_HEIGHT cfg / 2 - r_height rc / 2
    /\ rc = {| r_left := 816; r_top := 396; r_width := 288; r_height := 288 |}
    /\ run (make_color_checker_image cfg rgb) = (log, inr tt)
    /\ length (writes log) = 25%nat
    /\ forall idx, 0 <= idx < 24 ->
         exists file img,
           writes log !! Z.to_nat (idx + 1) = Some (file, img)
           /\ forall r c, 0 <= r < IMG_HEIGHT cfg -> 0 <= c < IMG_WIDTH cfg ->
                pixel img r c
                = Some (if in_rect rc r c
                        then map3 (quantize cfg) (reverse3 (colour_of rgb idx))
                        else (0, 0, 0)).
Proof.
  intros Hlen cfg.
  exists reference_measure_rect.
  eexists.
  split; [apply reference_measure|].
  split; [vm_compute; reflexivity|].
  do 4 (split; [reflexivity|]).
  split; [unfold run, cfg; now rewrite (reference_run lib rgb [] Hlen)|].
  rewrite !writes_app, writes_measure_events.
  change (writes [] ) with (@nil (string * canvas16)).
  rewrite app_nil_l.
  rewrite !writes_cons, writes_nil.
  split; [rewrite length_app, length_map, zrange_length; reflexivity|].
  intros idx Hidx. eexists _, _. split.
  - replace (Z.to_nat (idx + 1)) with (S (Z.to_nat idx)) by lia.
    change ([?a] ++ ?l) with (a :: l). rewrite lookup_cons.
    change (map ?f ?l) with (fmap (M:=list) f l).
    rewrite list_lookup_fmap, (zrange_lookup 24 0 (Z.to_nat idx)) by lia.
    cbn [fmap option_fmap option_map]. rewrite Z.add_0_l, Z2Nat.id by lia.
    reflexivity.
  - intros r c Hr Hc.
    change (IMG_HEIGHT cfg) with 1080 in *. change (IMG_WIDTH cfg) with 1920 in *.
    rewrite pixel_get_16bit_img. unfold reverse_channels.
    rewrite pixel_map, pixel_paint, pixel_blank.
    change (IMG_HEIGHT (reference_config lib)) with 1080.
    change (IMG_WIDTH (reference_config lib)) with 1920.
    unfold in_range at 1 2.
    replace ((0 <=? r) && (r <? 1080) && ((0 <=? c) && (c <? 1920))) with true
      by (symmetry; bool_to_prop; lia).
    cbn [fmap option_fmap option_map].
    destruct (in_rect reference_measure_rect r c); [reflexivity|].
    vm_compute. reflexivity.
Qed.

Lemma C8_single_patch_images_witness :
  exists log file img,
    run (make_color_checker_image (reference_config identity_lib) demo_rgb)
    = (log, inr tt)
    /\ writes log !! 24%nat = Some (file, img)
    /\ pixel img 396 816 = Some (49152, 32768, 28671)
    /\ pixel img 395 816 = Some (0, 0, 0)
    /\ pixel img 683 1103 = Some (49152, 32768, 28671)
    /\ pixel img 684 1103 = Some (0, 0, 0).
Proof.
  destruct (C8_single_patch_images identity_lib demo_rgb)
    as (rc & log & _ & _ & _ & _ & _ & -> & Hrun & _ & Himg).
  - vm_compute. lia.
  - destruct (Himg 23 ltac:(lia)) as (file & img & Hw & Hpix).
    exists log, file, img. split; [exact Hrun|]. split; [exact Hw|].
    repeat split.
    + rewrite (Hpix 396 816) by (cbn; lia). vm_compute. reflexivity.
    + rewrite (Hpix 395 816) by (cbn; lia). vm_compute. reflexivity.
    + rewrite (Hpix 683 1103) by (cbn; lia). vm_compute. reflexivity.
    + rewrite (Hpix 684 1103) by (cbn; lia). vm_compute. reflexivity.
Defined.

(** C9: with the constants of the file, a chart of 24 entries and a
    colour-science package whose functions keep the number of triples, the
    chart provider yields 24 triples, the encoder yields 24 triples, and
    24 = 6 * 4 is the size of the grid.  The compositor paints the 24
    mosaic rectangles, all different, each in the colour of its patch, and
    writes, after the mosaic, exactly 24 single-patch images: the image
    number [idx + 1] shows the encoded patch [idx]. *)
Theorem C9_patch_counts (lib : colour.lib) (name : string)
  (data : list (Z * string * triple)) (wp : list float) :
  colour.COLOURCHECKERS_get lib "ColorChecker 2005" = Some (name, data, wp) ->
  length data = 24%nat ->
  (forall l, length (colour.xyY_to_XYZ lib l) = length l) ->
  (forall l a b m t, length (colour.XYZ_to_RGB lib l a b m t) = length l) ->
  (forall l, length (colour.eotf_reverse_BT2100_HLG lib l) = length l) ->
  let cfg := reference_config lib in
  exists large_xyz rgb_prime log,
    snd (get_colorchecker_large_xyz_and_whitepoint lib (COLOR_CHECKER_NAME cfg) [])
    = inr (large_xyz, wp)
    /\ length large_xyz = 24%nat
    /\ rgb_prime
       = colour.eotf_reverse_BT2100_HLG lib
           (array_mul_int (linear_rgb lib cfg data wp) (TARGET_BRIGHTNESS cfg))
    /\ length rgb_prime = length data
    /\ Z.of_nat (length rgb_prime)
       = COLOR_CHECKER_H_NUM cfg * COLOR_CHECKER_V_NUM cfg
    /\ h_num * v_num = COLOR_CHECKER_H_NUM cfg * COLOR_CHECKER_V_NUM cfg
    /\ length (mosaic_rects reference_geometry) = 24%nat
    /\ (forall i j, 0 <= i < 24 -> 0 <= j < 24 ->
          mosaic_rect reference_geometry i = mosaic_rect reference_geometry j ->
          i = j)
    /\ run (main_func lib cfg) = (log, inr tt)
    /\ length (writes log) = 25%nat
    /\ (exists mosaic,
          writes log !! 0%nat
          = Some (all_patch_file_str (colour._name (COLOR_SPACE cfg)) (OETF_TYPE cfg),
                  _get_16bit_img cfg (reverse_channels mosaic))
          /\ forall idx r c, 0 <= idx < 24 ->
               in_rect (mosaic_rect reference_geometry idx) r c = true ->
               pixel mosaic r c = rgb_prime !! Z.to_nat idx)
    /\ forall idx, 0 <= idx < 24 ->
         exists col,
           rgb_prime !! Z.to_nat idx = Some col
           /\ writes log !! Z.to_nat (idx + 1)
              = Some (measure_file_str (colour._name (COLOR_SPACE cfg))
                        (OETF_TYPE cfg) (idx + 1)
                        (default ""%string
                           (COLOR_CHECKER_EACH_NAME !! Z.to_nat idx)),
                      _get_16bit_img cfg
                        (reverse_channels
                           (paint (blank (IMG_HEIGHT cfg) (IMG_WIDTH cfg))
                              reference_measure_rect col))).
Proof.
  intros Hchart Hdata Hxyz Hrgb Hoetf cfg.
  set (rgb_prime :=
         colour.eotf_reverse_BT2100_HLG lib
           (array_mul_int (linear_rgb lib cfg data wp) (TARGET_BRIGHTNESS cfg))).
  assert (Hlen : length rgb_prime = 24%nat).
  { unfold rgb_prime, array_mul_int, linear_rgb, xyY_of.
    now rewrite Hoetf, length_map, Hrgb, Hxyz, length_map. }
  exists (colour.xyY_to_XYZ lib (xyY_of data)), rgb_prime.
  eexists.
  split.
  { unfold get_colorchecker_large_xyz_and_whitepoint.
    change (COLOR_CHECKER_NAME cfg) with "ColorChecker 2005"%string.
    rewrite Hchart. reflexivity. }
  split; [unfold xyY_of; now rewrite Hxyz, length_map|].
  split; [reflexivity|].
  split; [congruence|].
  split; [rewrite Hlen; reflexivity|].
  split; [reflexivity|].
  split; [apply mosaic_rects_length|].
  split; [apply mosaic_rect_reference_inj|].
  split.
  { unfold run.
    rewrite (main_func_ok lib cfg name data wp (colour.eotf_reverse_BT2100_HLG lib))
      by (try exact Hchart; reflexivity).
    fold rgb_prime. unfold cfg at 1.
    rewrite (reference_run lib rgb_prime) by (rewrite Hlen; lia).
    reflexivity. }
  rewrite !writes_app, writes_measure_events.
  rewrite !writes_cons, !writes_nil. rewrite !app_nil_l.
  change ([?a] ++ ?l) with (a :: l).
  split; [cbn [length]; now rewrite length_map, zrange_length|].
  split.
  - eexists. split; [reflexivity|].
    intros idx r c Hidx Hin.
    rewrite (reference_mosaic_pixel rgb_prime idx r c Hidx Hin).
    symmetry. apply colour_of_lookup. lia.
  - intros idx Hidx. exists (colour_of rgb_prime idx).
    split; [apply colour_of_lookup; lia|].
    replace (Z.to_nat (idx + 1)) with (S (Z.to_nat idx)) by lia.
    rewrite lookup_cons.
    change (map ?f ?l) with (fmap (M:=list) f l).
    rewrite list_lookup_fmap, (zrange_lookup 24 0 (Z.to_nat idx)) by lia.
    cbn [fmap option_fmap option_map]. rewrite Z.add_0_l, Z2Nat.id by lia.
    reflexivity.
Qed.

(** The statement above for a chart of 24 entries and a package that
    returns its arguments. *)
(** The statement above for a chart of 24 entries and a package that
    returns its arguments. *)
Lemma C9_patch_counts_witness :
  exists rgb_prime log,
    length rgb_prime = 24%nat
    /\ run (main_func identity_lib (reference_config identity_lib)) = (log, inr tt)
    /\ length (writes log) = 25%nat
    /\ rgb_prime !! 0%nat = Some (0, 50, -25)%float.
Proof.
  destruct (C9_patch_counts identity_lib "ColorChecker 2005"
              (map (fun k => (k + 1,
                              default ""%string
                                (COLOR_CHECKER_EACH_NAME !! Z.to_nat k),
                              (float_of_int k / 16, 0.5, -0.25)%float))
                 (zrange 0 24))
              [0.34570; 0.35850]%float)
    as (large_xyz & rgb_prime & log & _ & _ & Hrgb & Hlen & _ & _ & _ & _ & Hrun
        & Hw & _).
  - reflexivity.
  - reflexivity.
  - reflexivity.
  - reflexivity.
  - reflexivity.
  - exists rgb_prime, log.
    split; [rewrite Hlen; reflexivity|].
    split; [exact Hrun|]. split; [exact Hw|].
    rewrite Hrgb. vm_compute. reflexivity.
Defined.

(** C3, as the script behaves: when the configured name is neither "HLG"
    nor "ST2084", [OETF_FUNC] is [None] and nothing is raised while the
    constants are set.  The run then fails with an exception and shows and
    writes no image.  When the chart is known, the exception is the
    TypeError of calling [None] in the encoder, raised after the chart was
    read and all its patches went through [xyY_to_XYZ] and [XYZ_to_RGB];
    when the chart is unknown, the run fails earlier, on the chart. *)
Theorem C3_unknown_oetf_fails_in_encoder (lib : colour.lib) (cfg : config) :
  OETF_TYPE cfg <> "HLG"%string ->
  OETF_TYPE cfg <> "ST2084"%string ->
  OETF_FUNC lib cfg = None
  /\ exists log e,
       run (main_func lib cfg) = (log, inl e)
       /\ writes log = []
       /\ (forall img, ~ In (EvPreview img) log)
       /\ match colour.COLOURCHECKERS_get lib (COLOR_CHECKER_NAME cfg) with
          | Some (_, data, wp) =>
              e = TypeError "'NoneType' object is not callable"
              /\ log = pipeline_events lib cfg data wp
              /\ colour_calls log
                 = [ ("xyY_to_XYZ"%string, xyY_of data);
                     ("XYZ_to_RGB"%string, colour.xyY_to_XYZ lib (xyY_of data)) ]
          | None =>
              e = TypeError "cannot unpack non-iterable NoneType object"
              /\ log = [EvChartLookup (COLOR_CHECKER_NAME cfg)]
          end.
Proof.
  intros H1 H2.
  pose proof (OETF_FUNC_unknown lib cfg H1 H2) as Hnone.
  split; [exact Hnone|].
  destruct (colour.COLOURCHECKERS_get lib (COLOR_CHECKER_NAME cfg))
    as [[[name data] wp]|] eqn:Hchart.
  - exists (pipeline_events lib cfg data wp),
      (TypeError "'NoneType' object is not callable").
    split; [unfold run; now rewrite (main_func_no_oetf lib cfg name data wp [])|].
    split; [reflexivity|]. split; [|repeat split].
    intros img [H|[H|[H|[]]]]; discriminate H.
  - exists [EvChartLookup (COLOR_CHECKER_NAME cfg)],
      (TypeError "cannot unpack non-iterable NoneType object").
    split; [unfold run; now rewrite (main_func_no_chart lib cfg [])|].
    split; [reflexivity|]. split; [|repeat split].
    intros img [H|[]]; discriminate H.
Qed.

(** The statement above for the name "PQ". *)
Lemma C3_unknown_oetf_fails_in_encoder_witness :
  OETF_FUNC identity_lib (with_oetf_type (reference_config identity_lib) "PQ")
  = None
  /\ exists log,
       run (main_func identity_lib
              (with_oetf_type (reference_config identity_lib) "PQ"))
       = (log, inl (TypeError "'NoneType' object is not callable"))
       /\ length (colour_calls log) = 2%nat
       /\ writes log = [].
Proof.
  destruct (C3_unknown_oetf_fails_in_encoder identity_lib
              (with_oetf_type (reference_config identity_lib) "PQ"))
    as (Hnone & log & e & Hrun & Hw & _ & Hm).
  - discriminate.
  - discriminate.
  - split; [exact Hnone|].
    change (colour.COLOURCHECKERS_get identity_lib
              (COLOR_CHECKER_NAME
                 (with_oetf_type (reference_config identity_lib) "PQ")))
      with (colour.COLOURCHECKERS_get identity_lib "ColorChecker 2005") in Hm.
    cbv beta iota delta [identity_lib colour.COLOURCHECKERS_get String.eqb
                           Ascii.eqb Bool.eqb] in Hm.
    destruct Hm as (-> & Hlog & Hcalls).
    exists log. split; [exact Hrun|]. split; [now rewrite Hcalls|exact Hw].
Defined.

(** C3 as it is stated fails with the transfer function named "PQ": the run
    does fail, but only after the patches of the chart went through the
    colour-science package twice. *)
Lemma C3_counterexample :
  ~ fails_before_processing identity_lib
      (with_oetf_type (reference_config identity_lib) "PQ").
Proof.
  intros (log & e & Hrun & Hcalls & _).
  vm_compute in Hrun.
  injection Hrun as <- _.
  discriminate Hcalls.
Qed.

(** C2, what the script computes: with the constants of the file the start
    offsets are (226, 51), the patches are 240 pixels wide and 10 pixels
    apart, and the 6 x 4 rectangles of the loop cover the columns 226..1716
    and the rows 51..1041.  The centre of that box is (971, 546), the centre
    of the 1920 x 1080 canvas is (960, 540): the mosaic sits 11 pixels right
    and 6 pixels low, so it is not centred to within one pixel.  With the
    grid constants set to (4, 4) the offsets are (471, 51) and the 4 x 4
    rectangles sit 6 pixels right and 6 pixels low.  With (1, 1) the offsets
    are (840, 420) and the one rectangle is centred.  In both cases the loop
    itself still paints 6 x 4 rectangles from these offsets, a box that is
    not centred. *)
Theorem C2_mosaic_not_centred (lib : colour.lib) :
  let cfg := reference_config lib in
  snd (mosaic_layout cfg []) = inr reference_geometry
  /\ mosaic_rects reference_geometry = grid_rects reference_geometry 6 4
  /\ bounding_box (mosaic_rects reference_geometry) = Some (226, 51, 1716, 1041)
  /\ (226 + 1716) - IMG_WIDTH cfg = 2 * 11
  /\ (51 + 1041) - IMG_HEIGHT cfg = 2 * 6
  /\ ~ centred_within 1 (226, 51, 1716, 1041) (IMG_HEIGHT cfg) (IMG_WIDTH cfg)
  /\ (exists g,
        snd (mosaic_layout (with_grid cfg 4 4) []) = inr g
        /\ (g_st_h g, g_st_v g) = (471, 51)
        /\ bounding_box (grid_rects g 4 4) = Some (471, 51, 1461, 1041)
        /\ ~ centred_within 1 (471, 51, 1461, 1041)
              (IMG_HEIGHT cfg) (IMG_WIDTH cfg)
        /\ bounding_box (mosaic_rects g) = Some (471, 51, 1961, 1041)
        /\ ~ centred_within 1 (471, 51, 1961, 1041)
              (IMG_HEIGHT cfg) (IMG_WIDTH cfg))
  /\ (exists g,
        snd (mosaic_layout (with_grid cfg 1 1) []) = inr g
        /\ (g_st_h g, g_st_v g) = (840, 420)
        /\ bounding_box (grid_rects g 1 1) = Some (840, 420, 1080, 660)
        /\ centred_within 0 (840, 420, 1080, 660)
             (IMG_HEIGHT cfg) (IMG_WIDTH cfg)
        /\ bounding_box (mosaic_rects g) = Some (840, 420, 2330, 1410)
        /\ ~ centred_within 1 (840, 420, 2330, 1410)
              (IMG_HEIGHT cfg) (IMG_WIDTH cfg)).
Proof.
  intros cfg.
  split; [apply reference_layout|].
  split; [reflexivity|].
  split; [vm_compute; reflexivity|].
  split; [reflexivity|]. split; [reflexivity|].
  split; [unfold centred_within; simpl; lia|].
  split.
  - exists {| g_st_h := 471; g_st_v := 51; g_width := 240; g_height := 240;
              g_space := 10 |}.
    split; [vm_compute; reflexivity|]. split; [reflexivity|].
    split; [vm_compute; reflexivity|].
    split; [unfold centred_within; simpl; lia|].
    split; [vm_compute; reflexivity|].
    unfold centred_within; simpl; lia.
  - exists {| g_st_h := 840; g_st_v := 420; g_width := 240; g_height := 240;
              g_space := 10 |}.
    split; [vm_compute; reflexivity|]. split; [reflexivity|].
    split; [vm_compute; reflexivity|].
    split; [unfold centred_within; simpl; lia|].
    split; [vm_compute; reflexivity|].
    unfold centred_within; simpl; lia.
Qed.

(** * Further properties of the script *)

(** ** Loops that stop on an exception *)

Lemma for_loop_app {St} (body : Z -> St -> M St) (n m : nat) :
  forall start s log,
    for_loop body start (n + m) s log
    = bind (for_loop body start n s)
        (for_loop body (start + Z.of_nat n) m) log.
Proof.
  induction n as [|n IH]; intros start s log.
  - simpl. unfold bind, ret.
    now replace (start + Z.of_nat 0) with start by lia.
  - replace (start + Z.of_nat (S n)) with (start + 1 + Z.of_nat n) by lia.
    change (S n + m)%nat with (S (n + m)).
    cbn [for_loop]. unfold bind.
    destruct (body start s log) as [log1 [e|s1]]; [reflexivity|].
    rewrite IH. reflexivity.
Qed.

(** An assignment to a slice that starts inside the image and runs past its
    bottom or its right edge is refused: NumPy clips the slice, and a patch
    of two or more rows and columns does not broadcast to the smaller
    shape. *)
Lemma set_slice_overflow img rc patch log :
  0 <= r_top rc -> 0 <= r_left rc ->
  2 <= r_height rc -> 2 <= r_width rc ->
  patch_rows patch = r_height rc ->
  patch_cols patch = r_width rc ->
  fits rc (height img) (width img) = false ->
  set_slice img (r_top rc) (r_top rc + r_height rc)
    (r_left rc) (r_left rc + r_width rc) patch log
  = (log, inl (ValueError "could not broadcast input array")).
Proof.
  intros Ht Hl Hh Hw Hrows Hcols Hfit.
  assert (Hover : height img < r_top rc + r_height rc
                  \/ width img < r_left rc + r_width rc).
  { unfold fits in Hfit.
    destruct (Z_lt_le_dec (height img) (r_top rc + r_height rc)) as [?|H1];
      [now left|].
    destruct (Z_lt_le_dec (width img) (r_left rc + r_width rc)) as [?|H2];
      [now right|].
    exfalso. revert Hfit.
    repeat match goal with
           | |- context [?a <=? ?b] =>
               replace (a <=? b) with true by (symmetry; apply Z.leb_le; lia)
           end.
    discriminate. }
  unfold set_slice, slice_indices, slice_index.
  destruct (r_top rc <? 0) eqn:E1; [apply Z.ltb_lt in E1; lia|].
  destruct (r_top rc + r_height rc <? 0) eqn:E2; [apply Z.ltb_lt in E2; lia|].
  destruct (r_left rc <? 0) eqn:E3; [apply Z.ltb_lt in E3; lia|].
  destruct (r_left rc + r_width rc <? 0) eqn:E4; [apply Z.ltb_lt in E4; lia|].
  rewrite Hrows, Hcols. unfold broadcastable.
  pose proof (Nat2Z.is_nonneg (length img)). unfold height in *.
  assert (0 <= width img) by (unfold width; destruct img; lia).
  destruct Hover as [Hv|Hv].
  - replace (r_height rc =? _) with false by (symmetry; apply Z.eqb_neq; lia).
    replace (r_height rc =? 1) with false by (symmetry; apply Z.eqb_neq; lia).
    reflexivity.
  - replace (r_width rc =? Z.max _ 0) with false
      by (symmetry; apply Z.eqb_neq; lia).
    replace (r_width rc =? 1) with false by (symmetry; apply Z.eqb_neq; lia).
    rewrite andb_false_r. reflexivity.
Qed.

Lemma getitem_short {A} (l : list A) idx log :
  Z.of_nat (length l) <= idx ->
  getitem l idx log = (log, inl (IndexError "index out of range")).
Proof.
  intros Hi. unfold getitem.
  destruct (idx <? 0) eqn:E; [apply Z.ltb_lt in E; lia|].
  rewrite (proj2 (lookup_ge_None l (Z.to_nat idx))) by lia. reflexivity.
Qed.

(** A turn of the first loop for an index the colours do not reach. *)
Lemma draw_patch_short g rgb idx img log :
  0 <= g_height g -> 0 <= g_width g ->
  Z.of_nat (length rgb) <= idx ->
  draw_patch g rgb idx img log
  = (log, inl (IndexError "index out of range")).
Proof.
  intros Hh Hw Hidx. unfold draw_patch.
  rewrite (bind_ok _ _ _ _ _ (np_ones_ok _ _ log Hh Hw)).
  now rewrite (bind_raise _ _ _ _ _ (getitem_short rgb idx log Hidx)).
Qed.

(** A turn of the first loop whose rectangle runs past the image. *)
Lemma draw_patch_overflow g rgb idx img log :
  0 <= r_top (mosaic_rect g idx) -> 0 <= r_left (mosaic_rect g idx) ->
  2 <= g_height g -> 2 <= g_width g ->
  0 <= idx < Z.of_nat (length rgb) ->
  fits (mosaic_rect g idx) (height img) (width img) = false ->
  draw_patch g rgb idx img log
  = (log, inl (ValueError "could not broadcast input array")).
Proof.
  intros Ht Hl Hh Hw Hidx Hfit. unfold draw_patch.
  assert (Hh0 : 0 <= g_height g) by lia.
  assert (Hw0 : 0 <= g_width g) by lia.
  rewrite (bind_ok _ _ _ _ _ (np_ones_ok _ _ log Hh0 Hw0)).
  rewrite (bind_ok _ _ _ _ _
             (getitem_ok rgb idx _ log (proj1 Hidx) (colour_of_lookup rgb idx Hidx))).
  apply (set_slice_overflow img (mosaic_rect g idx)); auto.
Qed.

(** The first loop stops at the first turn that raises. *)
Lemma draw_loop_stops g rgb h w (n k : nat) e log :
  0 < h -> 0 <= w ->
  (k < n)%nat ->
  (forall idx, 0 <= idx < Z.of_nat k -> fits (mosaic_rect g idx) h w = true) ->
  (k <= length rgb)%nat ->
  draw_patch g rgb (Z.of_nat k) (mosaic_image g rgb h w k) log = (log, inl e) ->
  for_loop (draw_patch g rgb) 0 n (blank h w) log = (log, inl e).
Proof.
  intros Hh Hw Hkn Hfit Hlen Hbody.
  replace n with (k + S (n - S k))%nat by lia.
  rewrite for_loop_app.
  rewrite (bind_ok _ _ _ _ _ (draw_loop_ok g rgb h w k log Hh Hw Hfit Hlen)).
  simpl. rewrite Z.add_0_l.
  now rewrite (bind_raise _ _ _ _ _ Hbody).
Qed.

(** When the first loop raises, the compositor raises the same exception
    and logs nothing. *)
Lemma make_color_checker_image_stops cfg rgb g e log :
  snd (mosaic_layout cfg []) = inr g ->
  0 <= IMG_HEIGHT cfg -> 0 <= IMG_WIDTH cfg ->
  for_loop (draw_patch g rgb) 0 24 (blank (IMG_HEIGHT cfg) (IMG_WIDTH cfg)) log
  = (log, inl e) ->
  make_color_checker_image cfg rgb log = (log, inl e).
Proof.
  intros Hg Hh Hw Hloop. unfold make_color_checker_image.
  rewrite (bind_ok _ _ log log g)
    by (rewrite mosaic_layout_log; now rewrite Hg).
  rewrite (bind_ok _ _ _ _ _ (np_zeros_ok _ _ log Hh Hw)).
  rewrite (bind_ok _ _ _ _ _ (np_zeros_ok _ _ log Hh Hw)).
  unfold for_range. change (Z.to_nat (h_num * v_num)) with 24%nat.
  now rewrite (bind_raise _ _ _ _ _ Hloop).
Qed.

Lemma previews_app l1 l2 : previews (l1 ++ l2) = previews l1 ++ previews l2.
Proof. unfold previews. apply omap_app. Qed.

Lemma writes_pipeline_events lib cfg data wp :
  writes (pipeline_events lib cfg data wp) = []
  /\ previews (pipeline_events lib cfg data wp) = [].
Proof. split; reflexivity. Qed.

Lemma previews_measure_events cfg rc rgb start n :
  previews (measure_events cfg rc rgb start n) = [].
Proof.
  unfold measure_events. induction (zrange start n) as [|k l IH]; [reflexivity|].
  exact IH.
Qed.

(** With the constants of the file and fewer than 24 colours the first loop
    runs out of colours: the compositor raises and logs nothing. *)
Lemma reference_run_short lib rgb log :
  (length rgb < 24)%nat ->
  make_color_checker_image (reference_config lib) rgb log
  = (log, inl (IndexError "index out of range")).
Proof.
  intros Hlen.
  apply (make_color_checker_image_stops _ rgb reference_geometry).
  - apply reference_layout.
  - discriminate.
  - discriminate.
  - change (IMG_HEIGHT (reference_config lib)) with 1080.
    change (IMG_WIDTH (reference_config lib)) with 1920.
    apply (draw_loop_stops reference_geometry rgb 1080 1920 24 (length rgb));
      try lia.
    + intros idx Hidx. apply reference_fits. lia.
    + apply draw_patch_short; simpl; lia.
Qed.

(** ** Fewer or more than 24 colours *)

(** X3: with the constants of the file and fewer than 24 colours, the
    compositor raises IndexError in its first loop, at the first index that
    has no colour; no image is shown and no file is written, not even for
    the colours that are there. *)
Theorem X3_too_few_colours (lib : colour.lib) (rgb : list triple)
  (log : list event) :
  (length rgb < 24)%nat ->
  make_color_checker_image (reference_config lib) rgb log
  = (log, inl (IndexError "index out of range")).
Proof. apply reference_run_short. Qed.

(** The statement above for 23 colours and for none. *)
Lemma X3_too_few_colours_witness :
  run (make_color_checker_image (reference_config identity_lib) (take 23 demo_rgb))
  = ([], inl (IndexError "index out of range"))
  /\ run (make_color_checker_image (reference_config identity_lib) [])
     = ([], inl (IndexError "index out of range")).
Proof.
  split.
  - apply (X3_too_few_colours identity_lib (take 23 demo_rgb) []).
    vm_compute. lia.
  - apply (X3_too_few_colours identity_lib [] []). simpl. lia.
Defined.

Lemma colour_of_take rgb (n : nat) idx :
  0 <= idx < Z.of_nat n -> colour_of (take n rgb) idx = colour_of rgb idx.
Proof.
  intros Hi. unfold colour_of. now rewrite lookup_take_lt by lia.
Qed.

Lemma mosaic_image_ext g rgb rgb' h w (n : nat) :
  (forall idx, 0 <= idx < Z.of_nat n -> colour_of rgb idx = colour_of rgb' idx) ->
  mosaic_image g rgb h w n = mosaic_image g rgb' h w n.
Proof.
  induction n as [|n IH]; intros Hc; [reflexivity|].
  rewrite !mosaic_image_S, IH, Hc by (try lia; intros; apply Hc; lia).
  reflexivity.
Qed.

Lemma measure_events_ext cfg rc rgb rgb' (n : nat) :
  (forall idx, 0 <= idx < Z.of_nat n -> colour_of rgb idx = colour_of rgb' idx) ->
  measure_events cfg rc rgb 0 n = measure_events cfg rc rgb' 0 n.
Proof.
  intros Hc. unfold measure_events. apply map_ext_in.
  intros idx Hin. apply zrange_elem in Hin. now rewrite Hc by lia.
Qed.

(** X4: with the constants of the file the compositor looks at the first 24
    colours only: what it shows and writes for a longer array is what it
    shows and writes for the first 24 entries of it. *)
Theorem X4_only_first_24_colours (lib : colour.lib) (rgb : list triple)
  (log : list event) :
  (24 <= length rgb)%nat ->
  make_color_checker_image (reference_config lib) rgb log
  = make_color_checker_image (reference_config lib) (take 24 rgb) log.
Proof.
  intros Hlen.
  rewrite (reference_run lib rgb log Hlen).
  rewrite (reference_run lib (take 24 rgb) log)
    by (rewrite length_take; lia).
  assert (Hc : forall idx, 0 <= idx < Z.of_nat 24 ->
                 colour_of rgb idx = colour_of (take 24 rgb) idx)
    by (intros; symmetry; now apply colour_of_take).
  rewrite (mosaic_image_ext reference_geometry rgb (take 24 rgb) 1080 1920 24 Hc).
  rewrite (measure_events_ext _ reference_measure_rect rgb (take 24 rgb) 24 Hc).
  reflexivity.
Qed.

(** The statement above for 24 colours followed by two more. *)
Lemma X4_only_first_24_colours_witness :
  run (make_color_checker_image (reference_config identity_lib)
         (demo_rgb ++ [(9, 9, 9); (7, 7, 7)]%float))
  = run (make_color_checker_image (reference_config identity_lib) demo_rgb).
Proof.
  unfold run.
  rewrite (X4_only_first_24_colours identity_lib
             (demo_rgb ++ [(9, 9, 9); (7, 7, 7)]%float) [])
    by (vm_compute; lia).
  reflexivity.
Defined.

(** ** A whole run with the constants of the file *)

Lemma oetf_layout lib name :
  snd (mosaic_layout (with_oetf_type (reference_config lib) name) [])
  = inr reference_geometry
  /\ snd (measure_rect (with_oetf_type (reference_config lib) name) [])
     = inr reference_measure_rect.
Proof. split; vm_compute; reflexivity. Qed.

(** The compositor with the constants of the file and any name of the
    transfer function, for 24 colours or more and for fewer. *)
Lemma oetf_run lib name rgb log :
  (24 <= length rgb)%nat ->
  let cfg := with_oetf_type (reference_config lib) name in
  make_color_checker_image cfg rgb log
  = (log
     ++ [EvPreview (reverse_channels (mosaic_image reference_geometry rgb 1080 1920 24));
         EvImWrite
           (all_patch_file_str (colour._name (COLOR_SPACE cfg)) (OETF_TYPE cfg))
           (_get_16bit_img cfg
              (reverse_channels (mosaic_image reference_geometry rgb 1080 1920 24)))]
     ++ measure_events cfg reference_measure_rect rgb 0 24,
     inr tt).
Proof.
  intros Hlen cfg.
  apply (make_color_checker_image_ok cfg rgb reference_geometry
           reference_measure_rect log).
  - apply oetf_layout.
  - apply oetf_layout.
  - reflexivity.
  - discriminate.
  - intros idx Hi. now apply reference_fits.
  - apply reference_measure_fits.
  - exact Hlen.
Qed.

Lemma oetf_run_short lib name rgb log :
  (length rgb < 24)%nat ->
  make_color_checker_image (with_oetf_type (reference_config lib) name) rgb log
  = (log, inl (IndexError "index out of range")).
Proof.
  intros Hlen.
  apply (make_color_checker_image_stops _ rgb reference_geometry).
  - apply oetf_layout.
  - discriminate.
  - discriminate.
  - change (IMG_HEIGHT (with_oetf_type (reference_config lib) name)) with 1080.
    change (IMG_WIDTH (with_oetf_type (reference_config lib) name)) with 1920.
    apply (draw_loop_stops reference_geometry rgb 1080 1920 24 (length rgb));
      try lia.
    + intros idx Hidx. apply reference_fits. lia.
    + apply draw_patch_short; simpl; lia.
Qed.

(** X5: with the image constants of the file and any name of the transfer
    function, a run either ends well, after one preview and 25 files (the
    mosaic and 24 single patches), or raises before anything is shown or
    written, whatever the colour-science package returns: no run leaves a
    part of the files behind. *)
Theorem X5_all_files_or_none (lib : colour.lib) (name : string) :
  let cfg := with_oetf_type (reference_config lib) name in
  exists log r,
    run (main_func lib cfg) = (log, r)
    /\ ((r = inr tt
         /\ length (writes log) = 25%nat /\ length (previews log) = 1%nat)
        \/ (exists e, r = inl e /\ writes log = [] /\ previews log = [])).
Proof.
  intros cfg. unfold run.
  destruct (colour.COLOURCHECKERS_get lib (COLOR_CHECKER_NAME cfg))
    as [[[nm data] wp]|] eqn:Hchart.
  - destruct (OETF_FUNC lib cfg) as [f|] eqn:Hf.
    + rewrite (main_func_ok lib cfg nm data wp f [] Hchart Hf).
      set (rgb_prime := f _).
      rewrite app_nil_l.
      destruct (le_lt_dec 24 (length rgb_prime)) as [Hlen|Hlen].
      * unfold cfg at 1. rewrite (oetf_run lib name rgb_prime _ Hlen).
        eexists _, _. split; [reflexivity|]. left. split; [reflexivity|].
        rewrite !writes_app, !previews_app, writes_measure_events,
          previews_measure_events.
        rewrite !writes_cons, !writes_nil.
        destruct (writes_pipeline_events lib cfg data wp) as [-> ->].
        split; [|reflexivity].
        cbn [app length]. now rewrite length_map, zrange_length.
      * unfold cfg at 1. rewrite (oetf_run_short lib name rgb_prime _ Hlen).
        eexists _, _. split; [reflexivity|]. right. eexists.
        split; [reflexivity|].
        rewrite !writes_app, !previews_app.
        destruct (writes_pipeline_events lib cfg data wp) as [-> ->].
        split; reflexivity.
    + rewrite (main_func_no_oetf lib cfg nm data wp [] Hchart Hf).
      eexists _, _. split; [reflexivity|]. right. eexists. split; [reflexivity|].
      rewrite app_nil_l.
      destruct (writes_pipeline_events lib cfg data wp) as [-> ->].
      split; reflexivity.
  - rewrite (main_func_no_chart lib cfg [] Hchart).
    eexists _, _. split; [reflexivity|]. right. eexists. split; [reflexivity|].
    split; reflexivity.
Qed.

(** ** A grid that does not fit the canvas *)

Lemma first_false (P : Z -> bool) (n : nat) :
  (forall idx, 0 <= idx < Z.of_nat n -> P idx = true)
  \/ exists k : nat,
       (k < n)%nat /\ P (Z.of_nat k) = false
       /\ forall idx, 0 <= idx < Z.of_nat k -> P idx = true.
Proof.
  induction n as [|n [IH|(k & Hk & Hf & Hb)]].
  - left. intros idx Hi. lia.
  - destruct (P (Z.of_nat n)) eqn:E.
    + left. intros idx Hi.
      destruct (Z.eq_dec idx (Z.of_nat n)) as [->|Hne]; [exact E|].
      apply IH. lia.
    + right. exists n. split; [lia|]. split; [exact E|exact IH].
  - right. exists k. split; [lia|]. split; assumption.
Qed.

Lemma mosaic_layout_square cfg g :
  snd (mosaic_layout cfg []) = inr g -> g_height g = g_width g.
Proof.
  unfold mosaic_layout, patch_st_h, patch_st_v, patch_width, patch_space,
    bind, int_, ret, raise.
  repeat match goal with
         | |- context [py_int ?x] => destruct (py_int x)
         end;
    repeat match goal with
           | |- context [Prim2SF ?x] => destruct (Prim2SF x)
           end; simpl; intros H; try discriminate H.
  now injection H as <-.
Qed.

(** A rectangle of the loop that runs past the canvas stops the compositor. *)
Lemma overflow_run cfg g rgb log :
  snd (mosaic_layout cfg []) = inr g ->
  0 < IMG_HEIGHT cfg -> 0 <= IMG_WIDTH cfg ->
  0 <= g_st_h g -> 0 <= g_st_v g -> 0 <= g_space g -> 2 <= g_width g ->
  (24 <= length rgb)%nat ->
  (exists idx, 0 <= idx < 24
               /\ fits (mosaic_rect g idx) (IMG_HEIGHT cfg) (IMG_WIDTH cfg) = false) ->
  make_color_checker_image cfg rgb log
  = (log, inl (ValueError "could not broadcast input array")).
Proof.
  intros Hg Hh Hw Hsth Hstv Hsp Hpw Hlen (idx0 & Hidx0 & Hunfit).
  pose proof (mosaic_layout_square cfg g Hg) as Hsq.
  destruct (first_false
              (fun idx => fits (mosaic_rect g idx) (IMG_HEIGHT cfg) (IMG_WIDTH cfg))
              24) as [Hall|(k & Hk & Hf & Hb)].
  { rewrite (Hall idx0) in Hunfit by (simpl; lia). discriminate. }
  apply (make_color_checker_image_stops cfg rgb g); try lia; [exact Hg|].
  apply (draw_loop_stops g rgb _ _ 24 k); try lia; [exact Hb|].
  assert (Hmod : 0 <= Z.of_nat k mod h_num)
    by (apply Z.mod_pos_bound; reflexivity).
  assert (Hdiv : 0 <= Z.of_nat k / h_num)
    by (apply Z.div_pos; [lia|reflexivity]).
  apply draw_patch_overflow; try lia.
  - simpl. nia.
  - simpl. nia.
  - rewrite height_mosaic_image, width_mosaic_image by lia. exact Hf.
Qed.



(** X13: whatever the constants, when the layout gives offsets and a
    padding that are not negative and patches of two pixels or more, the
    rectangle of the single-patch images lies inside the canvas and there
    are 24 colours or more, the compositor ends well exactly when all the
    24 rectangles of the mosaic lie inside the canvas. *)
Theorem X13_run_ends_well_iff_fits (cfg : config) (g : mosaic_geometry)
  (rc : rect) (rgb : list triple) (log : list event) :
  snd (mosaic_layout cfg []) = inr g ->
  snd (measure_rect cfg []) = inr rc ->
  0 < IMG_HEIGHT cfg -> 0 <= IMG_WIDTH cfg ->
  0 <= g_st_h g -> 0 <= g_st_v g -> 0 <= g_space g -> 2 <= g_width g ->
  fits rc (IMG_HEIGHT cfg) (IMG_WIDTH cfg) = true ->
  (24 <= length rgb)%nat ->
  snd (make_color_checker_image cfg rgb log) = inr tt
  <-> (forall idx, 0 <= idx < 24 ->
         fits (mosaic_rect g idx) (IMG_HEIGHT cfg) (IMG_WIDTH cfg) = true).
Proof.
  intros Hg Hrc Hh Hw Hsth Hstv Hsp Hpw Hfrc Hlen. split.
  - intros Hok idx Hidx.
    destruct (fits (mosaic_rect g idx) (IMG_HEIGHT cfg) (IMG_WIDTH cfg)) eqn:E;
      [reflexivity|].
    rewrite (overflow_run cfg g rgb log) in Hok; try assumption.
    + discriminate Hok.
    + exists idx. split; assumption.
  - intros Hfit.
    now rewrite (make_color_checker_image_ok cfg rgb g rc log).
Qed.

(** The statement above for the constants of the file. *)
Lemma X13_run_ends_well_iff_fits_witness :
  snd (run (make_color_checker_image (reference_config identity_lib) demo_rgb))
  = inr tt.
Proof.
  apply (X13_run_ends_well_iff_fits (reference_config identity_lib)
           reference_geometry reference_measure_rect demo_rgb []).
  - vm_compute. reflexivity.
  - vm_compute. reflexivity.
  - reflexivity.
  - discriminate.
  - discriminate.
  - discriminate.
  - discriminate.
  - discriminate.
  - reflexivity.
  - vm_compute. lia.
  - intros idx Hidx. now apply reference_fits.
Defined.

(** ** The mosaic file *)

(** X7: with the constants of the file and at least 24 colours, the first
    file written is the mosaic, and every pixel of it is known: inside the
    rectangle of the patch [idx] it is the colour [rgb[idx]] quantised, with
    the channels reversed for the writer, and outside the 24 rectangles it
    is zero. *)
Theorem X7_mosaic_file_pixels (lib : colour.lib) (rgb : list triple) :
  (24 <= length rgb)%nat ->
  let cfg := reference_config lib in
  exists log img,
    run (make_color_checker_image cfg rgb) = (log, inr tt)
    /\ writes log !! 0%nat
       = Some (all_patch_file_str (colour._name (COLOR_SPACE cfg)) (OETF_TYPE cfg),
               img)
    /\ (forall idx r c,
          0 <= idx < 24 ->
          in_rect (mosaic_rect reference_geometry idx) r c = true ->
          pixel img r c
          = Some (map3 (quantize cfg) (reverse3 (colour_of rgb idx))))
    /\ (forall r c,
          0 <= r < IMG_HEIGHT cfg -> 0 <= c < IMG_WIDTH cfg ->
          (forall idx, 0 <= idx < 24 ->
             in_rect (mosaic_rect reference_geometry idx) r c = false) ->
          pixel img r c = Some (0, 0, 0)).
Proof.
  intros Hlen cfg.
  eexists _, _. split; [unfold run, cfg; now rewrite (reference_run lib rgb [] Hlen)|].
  rewrite app_nil_l, writes_app, !writes_cons, writes_nil.
  split; [reflexivity|]. split.
  - intros idx r c Hidx Hin.
    rewrite pixel_get_16bit_img. unfold reverse_channels.
    rewrite pixel_map, (reference_mosaic_pixel rgb idx r c Hidx Hin).
    reflexivity.
  - intros r c Hr Hc Hout.
    change (IMG_HEIGHT cfg) with 1080 in Hr. change (IMG_WIDTH cfg) with 1920 in Hc.
    rewrite pixel_get_16bit_img. unfold reverse_channels.
    rewrite pixel_map, pixel_mosaic_image.
    unfold in_range.
    replace ((0 <=? r) && (r <? 1080) && ((0 <=? c) && (c <? 1920))) with true
      by (symmetry; bool_to_prop; lia).
    destruct (top_patch reference_geometry 24 r c) as [idx|] eqn:E.
    + apply top_patch_in in E as [Hidx Hin].
      rewrite (Hout idx) in Hin by (simpl in Hidx; lia). discriminate.
    + vm_compute. reflexivity.
Qed.

(** The statement above at 24 colours that all differ: the first pixel of
    patch 1, and the pixel left of it, which lies in the padding. *)
Lemma X7_mosaic_file_pixels_witness :
  exists log file img,
    run (make_color_checker_image (reference_config identity_lib) demo_rgb)
    = (log, inr tt)
    /\ writes log !! 0%nat = Some (file, img)
    /\ pixel img 51 476 = Some (49152, 32768, 4096)
    /\ pixel img 51 475 = Some (0, 0, 0).
Proof.
  destruct (X7_mosaic_file_pixels identity_lib demo_rgb)
    as (log & img & Hrun & Hw & Hin & Hout).
  - vm_compute. lia.
  - exists log. eexists. exists img.
    split; [exact Hrun|]. split; [exact Hw|]. split.
    + rewrite (Hin 1 51 476) by (try lia; reflexivity). vm_compute. reflexivity.
    + apply Hout; [simpl; lia|simpl; lia|].
      intros idx Hidx.
      apply (forallb_zrange_Z
               (fun idx => negb (in_rect (mosaic_rect reference_geometry idx) 51 475))
               0 24) in Hidx; [|vm_compute; reflexivity].
      now apply negb_true_iff in Hidx.
Defined.

(** ** The rectangles of the mosaic, for every geometry *)

(** X8: whatever the offsets and the patch size, when the padding is not
    negative the rectangles of two different indices share no pixel; the
    next rectangle in a row starts one patch width and one padding further
    right, and the rectangle one row below starts one patch height and one
    padding lower. *)
Theorem X8_mosaic_rects_apart (g : mosaic_geometry) (i j : Z) :
  0 <= g_space g -> 0 <= i -> 0 <= j -> i <> j ->
  (forall r c,
     in_rect (mosaic_rect g i) r c = true ->
     in_rect (mosaic_rect g j) r c = false)
  /\ (i mod 6 < 5 ->
      r_left (mosaic_rect g (i + 1))
      = r_left (mosaic_rect g i) + g_width g + g_space g
      /\ r_top (mosaic_rect g (i + 1)) = r_top (mosaic_rect g i))
  /\ r_top (mosaic_rect g (i + 6))
     = r_top (mosaic_rect g i) + g_height g + g_space g
  /\ r_left (mosaic_rect g (i + 6)) = r_left (mosaic_rect g i).
Proof.
  intros Hsp Hi Hj Hne. split; [|split].
  - intros r c Hin.
    destruct (in_rect (mosaic_rect g j) r c) eqn:E; [|reflexivity].
    exfalso. apply Hne. now apply (mosaic_rects_disjoint g i j r c).
  - intros Hcol. unfold mosaic_rect, h_num. simpl.
    pose proof (Z.div_mod i 6 ltac:(lia)).
    pose proof (Z.mod_pos_bound i 6 ltac:(lia)).
    assert ((i + 1) / 6 = i / 6)
      by (symmetry; apply (Z.div_unique (i + 1) 6 (i / 6) (i mod 6 + 1)); lia).
    assert ((i + 1) mod 6 = i mod 6 + 1)
      by (symmetry; apply (Z.mod_unique (i + 1) 6 (i / 6) (i mod 6 + 1)); lia).
    split; nia.
  - unfold mosaic_rect, h_num. simpl.
    pose proof (Z.div_mod i 6 ltac:(lia)).
    pose proof (Z.mod_pos_bound i 6 ltac:(lia)).
    assert ((i + 6) / 6 = i / 6 + 1)
      by (symmetry; apply (Z.div_unique (i + 6) 6 (i / 6 + 1) (i mod 6)); lia).
    assert ((i + 6) mod 6 = i mod 6)
      by (symmetry; apply (Z.mod_unique (i + 6) 6 (i / 6 + 1) (i mod 6)); lia).
    split; nia.
Qed.

(** The statement above for a geometry with no padding and the patches 5
    and 6, the last of the first row and the first of the second. *)
Lemma X8_mosaic_rects_apart_witness :
  let g := {| g_st_h := 3; g_st_v := 7; g_width := 20; g_height := 20;
              g_space := 0 |} in
  (forall r c,
     in_rect (mosaic_rect g 5) r c = true -> in_rect (mosaic_rect g 6) r c = false)
  /\ r_top (mosaic_rect g 11) = r_top (mosaic_rect g 5) + 20 + 0.
Proof.
  intros g.
  destruct (X8_mosaic_rects_apart g 5 6) as (H1 & _ & H3 & _);
    [simpl; lia|lia|lia|lia|].
  split; [exact H1|exact H3].
Defined.

(** ** The rectangle of the single-patch images, for every canvas *)

(** X9: whatever the size of the canvas, the rectangle of the single-patch
    images is a square whose centre is at most half a pixel away from the
    centre of the canvas on both axes. *)
Theorem X9_measure_rect_centred (cfg : config) (rc : rect) :
  snd (measure_rect cfg []) = inr rc ->
  r_height rc = r_width rc
  /\ Z.abs (r_left rc + (r_left rc + r_width rc) - IMG_WIDTH cfg) <= 1
  /\ Z.abs (r_top rc + (r_top rc + r_height rc) - IMG_HEIGHT cfg) <= 1
  /\ centred_within 1
       (r_left rc, r_top rc, r_left rc + r_width rc, r_top rc + r_height rc)
       (IMG_HEIGHT cfg) (IMG_WIDTH cfg).
Proof.
  unfold measure_rect, bind, int_, ret, raise.
  destruct (py_int _) as [side|]; simpl; intros H;
    [|destruct (Prim2SF _); discriminate H].
  injection H as <-. simpl.
  pose proof (Z.div_mod (IMG_WIDTH cfg) 2 ltac:(lia)).
  pose proof (Z.mod_pos_bound (IMG_WIDTH cfg) 2 ltac:(lia)).
  pose proof (Z.div_mod (IMG_HEIGHT cfg) 2 ltac:(lia)).
  pose proof (Z.mod_pos_bound (IMG_HEIGHT cfg) 2 ltac:(lia)).
  pose proof (Z.div_mod side 2 ltac:(lia)).
  pose proof (Z.mod_pos_bound side 2 ltac:(lia)).
  repeat split; lia.
Qed.

(** The statement above for the constants of the file. *)
Lemma X9_measure_rect_centred_witness :
  centred_within 1 (816, 396, 816 + 288, 396 + 288) 1080 1920.
Proof.
  destruct (X9_measure_rect_centred (reference_config identity_lib)
              reference_measure_rect) as (_ & _ & _ & H).
  - vm_compute. reflexivity.
  - exact H.
Defined.

(** ** The names of the files *)

Lemma format_02d_two_digits n : 0 <= n < 100 -> format_02d n = two_digits n.
Proof.
  intros Hn. apply String.eqb_eq.
  apply (forallb_zrange_Z
           (fun n => String.eqb (format_02d n) (two_digits n)) 0 100); [|lia].
  vm_compute. reflexivity.
Qed.

Lemma two_digits_table :
  forallb (fun n => forallb
                      (fun m => (n =? m)
                                || negb (String.eqb (two_digits n) (two_digits m)))
                      (zrange 0 (Z.to_nat 100)))
    (zrange 0 (Z.to_nat 100)) = true.
Proof. vm_compute. reflexivity. Qed.

Lemma two_digits_inj n m :
  0 <= n < 100 -> 0 <= m < 100 -> two_digits n = two_digits m -> n = m.
Proof.
  intros Hn Hm Heq.
  pose proof (forallb_zrange_Z _ 0 100 n two_digits_table ltac:(lia)) as H.
  cbv beta in H.
  pose proof (forallb_zrange_Z _ 0 100 m H ltac:(lia)) as H'.
  cbv beta in H'. rewrite Heq, String.eqb_refl in H'.
  cbn [negb] in H'. rewrite orb_false_r in H'. now apply Z.eqb_eq.
Qed.

Lemma append_inv_head (s a b : string) :
  (s ++ a)%string = (s ++ b)%string -> a = b.
Proof. induction s as [|ch s IH]; simpl; intros H; [exact H|]. injection H. exact IH. Qed.

(** Two single-patch file names with different numbers differ, whatever the
    colour space, the transfer function and the patch names are. *)
Lemma measure_file_str_inj cs oetf n m name name' :
  0 <= n < 100 -> 0 <= m < 100 ->
  measure_file_str cs oetf n name = measure_file_str cs oetf m name' ->
  n = m.
Proof.
  intros Hn Hm H. unfold measure_file_str in H.
  do 5 apply append_inv_head in H.
  rewrite !format_02d_two_digits in H by assumption.
  apply two_digits_inj; try assumption.
  unfold two_digits in *. simpl in H. injection H as H1 H2 _. congruence.
Qed.

Lemma all_patch_file_str_not_measure cs oetf n name :
  all_patch_file_str cs oetf <> measure_file_str cs oetf n name.
Proof.
  unfold all_patch_file_str, measure_file_str. intros H.
  simpl in H. discriminate H.
Qed.

Lemma NoDup_zrange n : forall start, NoDup (zrange start n).
Proof.
  induction n as [|n IH]; intros start; simpl; constructor.
  - intros Hin. apply list_elem_of_In, zrange_elem in Hin. lia.
  - apply IH.
Qed.

(** X11: with the constants of the file and at least 24 colours, the 25
    files of a run all have different names, whatever the name of the
    colour space is: the mosaic, and one file per patch whose name carries
    the number of the patch, from 1, written with two digits. *)
Theorem X11_file_names_distinct (lib : colour.lib) (rgb : list triple) :
  (24 <= length rgb)%nat ->
  let cfg := reference_config lib in
  exists log,
    run (make_color_checker_image cfg rgb) = (log, inr tt)
    /\ NoDup (map fst (writes log))
    /\ forall idx, 0 <= idx < 24 ->
         fst <$> writes log !! Z.to_nat (idx + 1)
         = Some ("./output/ColorChecker_Measure_Patch_"
                 ++ colour._name (colour.BT2020_COLOURSPACE lib) ++ "_HLG_"
                 ++ two_digits (idx + 1) ++ "_"
                 ++ default "" (COLOR_CHECKER_EACH_NAME !! Z.to_nat idx)
                 ++ ".tiff")%string.
Proof.
  intros Hlen cfg.
  eexists. split; [unfold run, cfg; now rewrite (reference_run lib rgb [] Hlen)|].
  rewrite app_nil_l, writes_app, !writes_cons, writes_nil, writes_measure_events.
  change ([?a] ++ ?l) with (a :: l).
  split.
  - rewrite map_cons, map_map. cbn [fst]. constructor.
    + intros Hin. apply list_elem_of_In, in_map_iff in Hin as (idx & Heq & _).
      symmetry in Heq. now apply all_patch_file_str_not_measure in Heq.
    + change (map ?f ?l) with (fmap (M:=list) f l).
      apply NoDup_fmap_2_strong; [|apply NoDup_zrange].
      intros i j Hi Hj Heq.
      apply list_elem_of_In, zrange_elem in Hi.
      apply list_elem_of_In, zrange_elem in Hj.
      apply measure_file_str_inj in Heq; lia.
  - intros idx Hidx.
    replace (Z.to_nat (idx + 1)) with (S (Z.to_nat idx)) by lia.
    rewrite lookup_cons.
    change (map ?f ?l) with (fmap (M:=list) f l).
    rewrite list_lookup_fmap, (zrange_lookup 24 0 (Z.to_nat idx)) by lia.
    cbn [fmap option_fmap option_map fst]. rewrite Z.add_0_l, Z2Nat.id by lia.
    unfold measure_file_str. rewrite format_02d_two_digits by lia.
    reflexivity.
Qed.

(** The statement above at 24 colours: the names of the first and of the
    last single-patch file. *)
Lemma X11_file_names_distinct_witness :
  exists log,
    run (make_color_checker_image (reference_config identity_lib) demo_rgb)
    = (log, inr tt)
    /\ fst <$> writes log !! 1%nat
       = Some "./output/ColorChecker_Measure_Patch_ITU-R BT.2020_HLG_01_dark skin.tiff"%string
    /\ fst <$> writes log !! 24%nat
       = Some "./output/ColorChecker_Measure_Patch_ITU-R BT.2020_HLG_24_black 2.tiff"%string.
Proof.
  destruct (X11_file_names_distinct identity_lib demo_rgb)
    as (log & Hrun & _ & Hname).
  - vm_compute. lia.
  - exists log. split; [exact Hrun|]. split.
    + apply (Hname 0). lia.
    + apply (Hname 23). lia.
Defined.

(** ** Rounding keeps the order *)

(** [V / 2^K] rounded to the nearest integer, ties to even. *)
Lemma rint_mag_scaled m e K :
  0 <= K -> - e <= K ->
  let V := Z.pos m * 2 ^ (e + K) in
  let q := V / 2 ^ K in
  let r := V mod 2 ^ K in
  rint_mag m e
  = if 2 * r <? 2 ^ K then q
    else if 2 ^ K <? 2 * r then q + 1
    else if Z.even q then q else q + 1.
Proof.
  intros HK He V q r. unfold rint_mag.
  assert (HpK : 0 < 2 ^ K) by (apply Z.pow_pos_nonneg; lia).
  destruct (0 <=? e) eqn:E.
  - apply Z.leb_le in E.
    assert (HV : V = Z.pos m * 2 ^ e * 2 ^ K)
      by (unfold V; rewrite Z.pow_add_r by lia; lia).
    assert (Hq : q = Z.pos m * 2 ^ e)
      by (unfold q; rewrite HV; apply Z.div_mul; lia).
    assert (Hr : r = 0) by (unfold r; rewrite HV; apply Z.mod_mul; lia).
    rewrite Hr, Hq, Z.shiftl_mul_pow2 by lia.
    replace (2 * 0 <? 2 ^ K) with true by (symmetry; apply Z.ltb_lt; lia).
    reflexivity.
  - apply Z.leb_gt in E.
    set (k := - e) in *.
    assert (Hk : 0 < k) by (unfold k; lia).
    assert (Hpk : 0 < 2 ^ k) by (apply Z.pow_pos_nonneg; lia).
    assert (Hpd : 0 < 2 ^ (K - k)) by (apply Z.pow_pos_nonneg; lia).
    assert (HKk : 2 ^ K = 2 ^ k * 2 ^ (K - k))
      by (rewrite <- Z.pow_add_r by lia; f_equal; lia).
    assert (HV : V = Z.pos m * 2 ^ (K - k))
      by (unfold V; f_equal; f_equal; unfold k; lia).
    assert (Hq : q = Z.pos m / 2 ^ k).
    { unfold q. rewrite HV, HKk. apply Z.div_mul_cancel_r; lia. }
    assert (Hr : r = (Z.pos m mod 2 ^ k) * 2 ^ (K - k)).
    { unfold r. rewrite HV, HKk. apply Z.mul_mod_distr_r; lia. }
    rewrite Z.shiftr_div_pow2, Z.land_ones, Z.shiftl_1_l by lia.
    assert (Hhalf : 2 ^ k = 2 * 2 ^ (k - 1)).
    { rewrite <- Z.pow_succ_r by lia. f_equal. lia. }
    rewrite <- Hq.
    set (rm := Z.pos m mod 2 ^ k) in *. set (hf := 2 ^ (k - 1)) in *.
    set (d := 2 ^ (K - k)) in *.
    destruct (rm <? hf) eqn:E1.
    + apply Z.ltb_lt in E1.
      replace (2 * r <? 2 ^ K) with true by (symmetry; apply Z.ltb_lt; nia).
      reflexivity.
    + apply Z.ltb_ge in E1.
      replace (2 * r <? 2 ^ K) with false by (symmetry; apply Z.ltb_ge; nia).
      destruct (hf <? rm) eqn:E2.
      * apply Z.ltb_lt in E2.
        replace (2 ^ K <? 2 * r) with true by (symmetry; apply Z.ltb_lt; nia).
        reflexivity.
      * apply Z.ltb_ge in E2.
        replace (2 ^ K <? 2 * r) with false by (symmetry; apply Z.ltb_ge; nia).
        reflexivity.
Qed.

(** A larger value is not rounded to a smaller integer. *)
Lemma rint_mag_monotone m1 e1 m2 e2 K :
  0 <= K -> - e1 <= K -> - e2 <= K ->
  Z.pos m1 * 2 ^ (e1 + K) <= Z.pos m2 * 2 ^ (e2 + K) ->
  rint_mag m1 e1 <= rint_mag m2 e2.
Proof.
  intros HK H1 H2 Hle.
  rewrite (rint_mag_scaled m1 e1 K HK H1), (rint_mag_scaled m2 e2 K HK H2).
  cbv zeta.
  set (V1 := Z.pos m1 * 2 ^ (e1 + K)) in *.
  set (V2 := Z.pos m2 * 2 ^ (e2 + K)) in *.
  assert (HpK : 0 < 2 ^ K) by (apply Z.pow_pos_nonneg; lia).
  pose proof (Z.div_mod V1 (2 ^ K) ltac:(lia)) as Hd1.
  pose proof (Z.mod_pos_bound V1 (2 ^ K) HpK) as Hb1.
  pose proof (Z.div_mod V2 (2 ^ K) ltac:(lia)) as Hd2.
  pose proof (Z.mod_pos_bound V2 (2 ^ K) HpK) as Hb2.
  set (q1 := V1 / 2 ^ K) in *. set (r1 := V1 mod 2 ^ K) in *.
  set (q2 := V2 / 2 ^ K) in *. set (r2 := V2 mod 2 ^ K) in *.
  set (P := 2 ^ K) in *.
  assert (Hq : q1 <= q2) by nia.
  destruct (Z.eq_dec q1 q2) as [Heq|Hne].
  - assert (r1 <= r2) by nia. rewrite Heq.
    destruct (2 * r1 <? P) eqn:A1; destruct (P <? 2 * r1) eqn:A2;
      destruct (2 * r2 <? P) eqn:B1; destruct (P <? 2 * r2) eqn:B2;
      try apply Z.ltb_lt in A1; try apply Z.ltb_lt in A2;
      try apply Z.ltb_lt in B1; try apply Z.ltb_lt in B2;
      try apply Z.ltb_ge in A1; try apply Z.ltb_ge in A2;
      try apply Z.ltb_ge in B1; try apply Z.ltb_ge in B2;
      destruct (Z.even q2); lia.
  - assert (q1 + 1 <= q2) by lia.
    repeat match goal with
           | |- context [if ?b then _ else _] => destruct b
           end; lia.
Qed.

Lemma valid_finite_facts s m e :
  valid_binary (S754_finite s m e) = true ->
  -1074 <= e
  /\ Z.pos m < 2 ^ 53
  /\ (-1074 < e -> 2 ^ 52 <= Z.pos m).
Proof.
  unfold valid_binary, bounded, canonical_mantissa, fexp, emin, prec, emax.
  intros Hv. apply andb_prop in Hv as [Hc _]. apply Z.eqb_eq in Hc.
  pose proof (digits2_pos_upper m) as Hu.
  pose proof (digits2_pos_lower m) as Hl.
  assert (Hd : Z.pos (digits2_pos m) <= 53) by lia.
  split; [lia|]. split.
  - assert (2 ^ Z.pos (digits2_pos m) <= 2 ^ 53) by (apply Z.pow_le_mono_r; lia).
    lia.
  - intros He. assert (Z.pos (digits2_pos m) = 53) as Hd53 by lia.
    rewrite Hd53 in Hl. exact Hl.
Qed.

(** The order of two positive binary64 numbers is the order of their values. *)
Lemma SFleb_value m1 e1 m2 e2 K :
  valid_binary (S754_finite false m1 e1) = true ->
  valid_binary (S754_finite false m2 e2) = true ->
  SFleb (S754_finite false m1 e1) (S754_finite false m2 e2) = true ->
  0 <= K -> - e1 <= K -> - e2 <= K ->
  Z.pos m1 * 2 ^ (e1 + K) <= Z.pos m2 * 2 ^ (e2 + K).
Proof.
  intros Hv1 Hv2 Hle HK H1 H2.
  destruct (valid_finite_facts _ _ _ Hv1) as (Hmin1 & Hup1 & _).
  destruct (valid_finite_facts _ _ _ Hv2) as (_ & _ & Hlow2).
  unfold SFleb, SFcompare in Hle.
  destruct (Z.compare_spec e1 e2) as [Heq|Hlt|Hgt].
  - subst e2.
    assert (Z.pos m1 <= Z.pos m2).
    { change (Pos.compare_cont Eq m1 m2) with (Pos.compare m1 m2) in Hle.
      destruct (Pos.compare_spec m1 m2) as [->|Hlt|Hgt];
        [lia|lia|discriminate Hle]. }
    apply Z.mul_le_mono_nonneg_r; [|assumption].
    apply Z.pow_nonneg. lia.
  - specialize (Hlow2 ltac:(lia)).
    assert (Hp : 0 < 2 ^ (e1 + K)) by (apply Z.pow_pos_nonneg; lia).
    assert (Hs : 2 ^ (e2 + K) = 2 ^ (e1 + K) * 2 ^ (e2 - e1))
      by (rewrite <- Z.pow_add_r by lia; f_equal; lia).
    assert (Hd : 2 <= 2 ^ (e2 - e1)).
    { change 2 with (2 ^ 1) at 1. apply Z.pow_le_mono_r; lia. }
    rewrite Hs.
    change (2 ^ 53) with 9007199254740992 in Hup1.
    change (2 ^ 52) with 4503599627370496 in Hlow2.
    nia.
  - discriminate Hle.
Qed.

Lemma np_uint16_zero x s : Prim2SF x = S754_zero s -> np_uint16 (np_round x) = 0.
Proof.
  intros H. unfold np_round. rewrite H. unfold np_uint16, py_int. now rewrite H.
Qed.

(** The code of a positive number that is not above 65535. *)
Lemma np_uint16_small x m e :
  Prim2SF x = S754_finite false m e ->
  (x <=? 65535)%float = true ->
  np_uint16 (np_round x) = rint_mag m e /\ 0 <= rint_mag m e <= 65535.
Proof.
  intros H Hle.
  rewrite FloatAxioms.leb_spec, H in Hle.
  change (Prim2SF 65535) with (S754_finite false 9007061815787520 (-37)) in Hle.
  pose proof (Prim2SF_valid x) as Hv. rewrite H in Hv.
  pose proof (rint_mag_nonneg m e) as Hpos.
  assert (Hup : rint_mag m e <= 65535).
  { change 65535 with (rint_mag 9007061815787520 (-37)).
    apply (rint_mag_monotone m e 9007061815787520 (-37) (Z.max 37 (- e)));
      try lia.
    apply SFleb_value; try assumption; try lia. reflexivity. }
  split; [|lia].
  rewrite (np_uint16_np_round x false m e H) by lia.
  apply Z.mod_small. lia.
Qed.

(** For a number of [0, 65535] the code is the rounded number itself:
    converting the rounded number to an integer gives the code. *)
Lemma np_uint16_exact y :
  (0 <=? y)%float = true ->
  (y <=? 65535)%float = true ->
  py_int (np_round y) = Some (np_uint16 (np_round y)).
Proof.
  intros H0 H2.
  pose proof H0 as H0'. pose proof H2 as H2'.
  rewrite FloatAxioms.leb_spec in H0', H2'.
  change (Prim2SF 0) with (S754_zero false) in H0'.
  change (Prim2SF 65535) with (S754_finite false 9007061815787520 (-37)) in H2'.
  destruct (Prim2SF y) as [s|s| |s m e] eqn:E.
  - rewrite (np_uint16_zero y s E).
    unfold np_round. rewrite E. unfold py_int. now rewrite E.
  - destruct s; [discriminate H0'|discriminate H2'].
  - discriminate H0'.
  - destruct s; [discriminate H0'|].
    destruct (np_uint16_small y m e E H2) as [-> _].
    apply (py_int_np_round y false m e E).
Qed.

(** Rounding and conversion keep the order of two numbers of [0, 65535],
    and the code of each is its rounded value. *)
Lemma np_uint16_np_round_monotone y1 y2 :
  (0 <=? y1)%float = true ->
  (y1 <=? y2)%float = true ->
  (y2 <=? 65535)%float = true ->
  py_int (np_round y1) = Some (np_uint16 (np_round y1))
  /\ py_int (np_round y2) = Some (np_uint16 (np_round y2))
  /\ 0 <= np_uint16 (np_round y1) <= np_uint16 (np_round y2)
  /\ np_uint16 (np_round y2) <= 65535.
Proof.
  intros H0 H12 H2.
  pose proof H0 as H0'. pose proof H12 as H12'. pose proof H2 as H2'.
  rewrite FloatAxioms.leb_spec in H0', H12', H2'.
  change (Prim2SF 0) with (S754_zero false) in H0'.
  change (Prim2SF 65535) with (S754_finite false 9007061815787520 (-37)) in H2'.
  pose proof (Prim2SF_valid y1) as Hv1. pose proof (Prim2SF_valid y2) as Hv2.
  pose proof (np_uint16_range (np_round y2)) as Hr2.
  assert (H02 : (0 <=? y2)%float = true).
  { rewrite FloatAxioms.leb_spec.
    change (Prim2SF 0) with (S754_zero false).
    destruct (Prim2SF y1) as [s1|s1| |s1 m1 e1];
      destruct (Prim2SF y2) as [s2|s2| |s2 m2 e2];
      try discriminate H0'; try discriminate H12'; try discriminate H2';
      try reflexivity;
      destruct s2; try reflexivity;
      try discriminate H2'; destruct s1; discriminate. }
  split; [|split; [exact (np_uint16_exact y2 H02 H2)|]].
  - destruct (Prim2SF y1) as [s1|s1| |s1 m1 e1] eqn:E1.
    + rewrite (np_uint16_zero y1 s1 E1).
      unfold np_round. rewrite E1. unfold py_int. now rewrite E1.
    + exfalso. destruct s1; [discriminate H0'|].
      destruct (Prim2SF y2) as [s2|s2| |s2 m2 e2]; try discriminate H12'.
      destruct s2; [discriminate H12'|discriminate H2'].
    + discriminate H0'.
    + destruct s1; [discriminate H0'|].
      destruct (Prim2SF y2) as [s2|s2| |s2 m2 e2] eqn:E2.
      * discriminate H12'.
      * exfalso. destruct s2; [discriminate H12'|discriminate H2'].
      * discriminate H12'.
      * destruct s2; [discriminate H12'|].
        destruct (np_uint16_small y2 m2 e2 E2 H2) as [_ Hb2].
        assert (Hmono : rint_mag m1 e1 <= rint_mag m2 e2).
        { apply (rint_mag_monotone m1 e1 m2 e2 (Z.max 0 (Z.max (- e1) (- e2))));
            try lia.
          apply SFleb_value; try assumption; lia. }
        pose proof (rint_mag_nonneg m1 e1) as Hpos1.
        rewrite (np_uint16_np_round y1 false m1 e1 E1) by lia.
        rewrite Z.mod_small by lia.
        apply (py_int_np_round y1 false m1 e1 E1).
  - destruct (Prim2SF y1) as [s1|s1| |s1 m1 e1] eqn:E1.
    + rewrite (np_uint16_zero y1 s1 E1). lia.
    + exfalso. destruct s1; [discriminate H0'|].
      destruct (Prim2SF y2) as [s2|s2| |s2 m2 e2]; try discriminate H12'.
      destruct s2; [discriminate H12'|discriminate H2'].
    + discriminate H0'.
    + destruct s1; [discriminate H0'|].
      destruct (Prim2SF y2) as [s2|s2| |s2 m2 e2] eqn:E2.
      * discriminate H12'.
      * exfalso. destruct s2; [discriminate H12'|discriminate H2'].
      * discriminate H12'.
      * destruct s2; [discriminate H12'|].
        destruct (np_uint16_small y2 m2 e2 E2 H2) as [-> Hb2].
        assert (Hmono : rint_mag m1 e1 <= rint_mag m2 e2).
        { apply (rint_mag_monotone m1 e1 m2 e2 (Z.max 0 (Z.max (- e1) (- e2))));
            try lia.
          apply SFleb_value; try assumption; lia. }
        pose proof (rint_mag_nonneg m1 e1) as Hpos1.
        rewrite (np_uint16_np_round y1 false m1 e1 E1) by lia.
        rewrite Z.mod_small by lia. lia.
Qed.

(** X12: with the constants of the file, quantisation keeps the order of
    values whose products with 65535 lie between 0 and 65535: the larger
    product never gets the smaller code, and both codes are the rounded
    products themselves, with no wrap: the integer value of
    [np.round(x * 65535)] is the code. *)
Theorem X12_quantize_monotone (lib : colour.lib) (x1 x2 : float) :
  (0 <=? x1 * 65535)%float = true ->
  (x1 * 65535 <=? x2 * 65535)%float = true ->
  (x2 * 65535 <=? 65535)%float = true ->
  py_int (np_round (x1 * 65535)) = Some (quantize (reference_config lib) x1)
  /\ py_int (np_round (x2 * 65535)) = Some (quantize (reference_config lib) x2)
  /\ 0 <= quantize (reference_config lib) x1 <= quantize (reference_config lib) x2
  /\ quantize (reference_config lib) x2 <= 65535.
Proof. apply np_uint16_np_round_monotone. Qed.

(** The statement above for 0.3 and 0.30001, whose codes are 19660 and
    19661. *)
Lemma X12_quantize_monotone_witness :
  py_int (np_round (0.3 * 65535)) = Some 19660
  /\ py_int (np_round (0.30001 * 65535)) = Some 19661
  /\ 0 <= quantize (reference_config identity_lib) 0.3
       <= quantize (reference_config identity_lib) 0.30001
  /\ quantize (reference_config identity_lib) 0.30001 <= 65535.
Proof.
  apply (X12_quantize_monotone identity_lib 0.3 0.30001); reflexivity.
Defined.
